(** * BufferBuilder: orchestration of the buffer pipeline

    A shallow embedding of [src/operation/buffer/BufferBuilder.cpp] (GEOS).
    Doubles are IEEE binary64 values ([PrimFloat]); C++ [int]s are integers
    reduced to 32 bits; [std::size_t] is reduced to 64 bits.  Objects reached
    through pointers (the edges of the edge list, the subgraphs) are list
    entries that are updated by index.  The classes the builder drives but
    does not define (curve builders, noders, the planar graph, overlay,
    polygonizer, line merger) are fields of an interface record.  Runs are
    taken without an interrupt request, so [GEOS_CHECK_FOR_INTERRUPTS] does
    nothing. *)

From Stdlib Require Import ZArith Floats Bool Lia Permutation Sorted String.
From stdpp Require Import base option list.

Set Default Proof Using "Type".
Local Open Scope Z_scope.

(** ** Machine integers *)

Module MachineInt.

Definition int_min : Z := - 2 ^ 31.
Definition int_max : Z := 2 ^ 31 - 1.

(** Two's complement reduction of an integer to a 32-bit [int]. *)
Definition wrap_int (z : Z) : Z := (z + 2 ^ 31) mod 2 ^ 32 - 2 ^ 31.

Definition int_add (a b : Z) : Z := wrap_int (a + b).

Definition in_int (z : Z) : Prop := int_min <= z <= int_max.

Definition size_max : Z := 2 ^ 64 - 1.

(** Reduction to [std::size_t]. *)
Definition wrap_size (z : Z) : Z := z mod 2 ^ 64.

Lemma wrap_int_id z : in_int z -> wrap_int z = z.
Proof.
  unfold in_int, int_min, int_max, wrap_int. intros Hz.
  rewrite Z.mod_small; lia.
Qed.

Lemma int_add_exact a b : in_int (a + b) -> int_add a b = a + b.
Proof. apply wrap_int_id. Qed.

Lemma wrap_int_range z : in_int (wrap_int z).
Proof.
  unfold in_int, int_min, int_max, wrap_int.
  pose proof (Z.mod_pos_bound (z + 2 ^ 31) (2 ^ 32) ltac:(lia)). lia.
Qed.

Lemma wrap_size_id z : 0 <= z <= size_max -> wrap_size z = z.
Proof. unfold size_max, wrap_size. intros. rewrite Z.mod_small; lia. Qed.

End MachineInt.
Export MachineInt.

(** ** Results of calls that may throw *)

Inductive Exception : Type :=
| IllegalArgumentException (msg : string)
| GEOSException (msg : string).

(** A call returns, throws, or has no defined behaviour (a null pointer is
    dereferenced). *)
Inductive Result (A : Type) : Type :=
| Ok (a : A)
| Throw (e : Exception)
| Undefined.
Arguments Ok {A} a.
Arguments Throw {A} e.
Arguments Undefined {A}.

Definition bind {A B : Type} (r : Result A) (k : A -> Result B) : Result B :=
  match r with
  | Ok a => k a
  | Throw e => Throw e
  | Undefined => Undefined
  end.

(** Dereferences a pointer that may be null. *)
Definition deref {A : Type} (p : option A) : Result A :=
  match p with
  | Some a => Ok a
  | None => Undefined
  end.

Declare Scope result_scope.
Delimit Scope result_scope with result.
Notation "'let*' x ':=' r 'in' k" := (bind r (fun x => k))
  (at level 10, x pattern, r at level 100, k at level 200) : result_scope.
Local Open Scope result_scope.

(** Runs [f] on every element from left to right; the first exception ends
    the traversal. *)
Fixpoint mapM {A B : Type} (f : A -> Result B) (l : list A) : Result (list B) :=
  match l with
  | [] => Ok []
  | a :: l' =>
      let* b := f a in
      let* bs := mapM f l' in
      Ok (b :: bs)
  end.

(** ** Geometry values *)

(** Modelled from the spec: coordinates, locations, precision models,
    factories and the geometry classes (the [geom] classes are outside the
    sources), as far as the builder looks at them. *)
Module Geom.

Local Open Scope float_scope.

Record Coordinate : Type := mkCoordinate { cx : float; cy : float; cz : float }.

(** A coordinate without elevation. *)
Definition xy (x y : float) : Coordinate := mkCoordinate x y nan.
Arguments xy (x y)%_float.

(** [Coordinate::equals2D], which is also [operator==] on coordinates. *)
Definition equals2D (p q : Coordinate) : bool :=
  (cx p =? cx q) && (cy p =? cy q).

(** [Coordinate::distance]. *)
Definition distance (p q : Coordinate) : float :=
  let dx := cx p - cx q in
  let dy := cy p - cy q in
  sqrt (dx * dx + dy * dy).

Inductive Location : Type := INTERIOR | BOUNDARY | EXTERIOR | NONE.

Inductive Position : Type := ON | LEFT | RIGHT.

Global Instance Location_eq_dec : EqDecision Location.
Proof. solve_decision. Defined.

Global Instance Position_eq_dec : EqDecision Position.
Proof. solve_decision. Defined.

Inductive PrecisionModel : Type :=
| FLOATING
| FIXED (scale : float).

Record GeometryFactory : Type :=
  mkFactory { precisionModel : PrecisionModel; SRID : Z }.

Inductive CollectionType : Type :=
| MULTIPOINT | MULTILINESTRING | MULTIPOLYGON | GEOMETRYCOLLECTION.

(** The geometry classes.  A [LinearRing] is a [LineString] by
    inheritance. *)
#[warnings="-register-all"]
Inductive Geometry : Type :=
| Point (f : GeometryFactory) (pts : list Coordinate)
| LineString (f : GeometryFactory) (pts : list Coordinate)
| LinearRing (f : GeometryFactory) (pts : list Coordinate)
| Polygon (f : GeometryFactory) (shell : list Coordinate)
          (holes : list (list Coordinate))
| Collection (f : GeometryFactory) (ty : CollectionType)
             (geoms : list Geometry).

Definition getFactory (g : Geometry) : GeometryFactory :=
  match g with
  | Point f _ | LineString f _ | LinearRing f _
  | Polygon f _ _ | Collection f _ _ => f
  end.

Definition getPrecisionModel (g : Geometry) : PrecisionModel :=
  precisionModel (getFactory g).

Definition getNumGeometries (g : Geometry) : nat :=
  match g with
  | Collection _ _ gs => length gs
  | _ => 1
  end.

(** The components of a geometry, [getGeometryN(0)] ...
    [getGeometryN(getNumGeometries() - 1)]: an atomic geometry is its own
    single component. *)
Definition components (g : Geometry) : list Geometry :=
  match g with
  | Collection _ _ gs => gs
  | _ => [g]
  end.

(** [dynamic_cast<const LineString*>(g)]. *)
Definition asLineString (g : Geometry) : option (list Coordinate) :=
  match g with
  | LineString _ pts | LinearRing _ pts => Some pts
  | _ => None
  end.

(** Geometries are immutable values: a clone is an equal value. *)
Definition clone (g : Geometry) : Geometry := g.

(** [GeometryFactory::createPolygon()], [createLineString()] without
    argument. *)
Definition createPolygon (f : GeometryFactory) : Geometry := Polygon f [] [].
Definition createEmptyLineString (f : GeometryFactory) : Geometry :=
  LineString f [].
Definition createLineString (f : GeometryFactory) (pts : list Coordinate)
  : Geometry := LineString f pts.
Definition createMultiLineString (f : GeometryFactory) (gs : list Geometry)
  : Geometry := Collection f MULTILINESTRING gs.

Fixpoint isEmpty (g : Geometry) : bool :=
  match g with
  | Point _ pts | LineString _ pts | LinearRing _ pts => bool_decide (pts = [])
  | Polygon _ shell _ => bool_decide (shell = [])
  | Collection _ _ gs => forallb isEmpty gs
  end.

Definition isPolygon (g : Geometry) : bool :=
  match g with Polygon _ _ _ => true | _ => false end.

Definition isLineString (g : Geometry) : bool :=
  match g with LineString _ _ => true | _ => false end.

End Geom.
Export Geom.

(** ** Labels, edges and the edge list *)

(** The operations of [geomgraph::Label] the builder uses.  [flip] and
    [merge] mutate the receiver in the source; here they return the new
    value of the receiver. *)
Class LabelOps (Label : Type) : Type := {
  getLocation : Label -> nat -> Position -> Location;
  flip : Label -> Label;
  merge : Label -> Label -> Label
}.

Module TopoLabel.

(** Modelled from the spec: [geomgraph::Label] (Label.cpp is outside the
    sources), a record of the ON, LEFT and RIGHT locations for each of the
    two source geometries.  [flip] exchanges LEFT and RIGHT; [merge] keeps
    every location that is known and fills the unknown ones from the
    other label. *)
Record TopologyLocation : Type :=
  mkTL { locOn : Location; locLeft : Location; locRight : Location }.

Record Label : Type := mkLabel { elt0 : TopologyLocation; elt1 : TopologyLocation }.

Definition tl_get (t : TopologyLocation) (pos : Position) : Location :=
  match pos with ON => locOn t | LEFT => locLeft t | RIGHT => locRight t end.

Definition tl_flip (t : TopologyLocation) : TopologyLocation :=
  mkTL (locOn t) (locRight t) (locLeft t).

Definition loc_merge (a b : Location) : Location :=
  match a with NONE => b | _ => a end.

Definition tl_merge (t u : TopologyLocation) : TopologyLocation :=
  mkTL (loc_merge (locOn t) (locOn u))
       (loc_merge (locLeft t) (locLeft u))
       (loc_merge (locRight t) (locRight u)).

Definition noLocation : TopologyLocation := mkTL NONE NONE NONE.

Definition label_get (l : Label) (geomIndex : nat) (pos : Position) : Location :=
  match geomIndex with
  | O => tl_get (elt0 l) pos
  | 1%nat => tl_get (elt1 l) pos
  | _ => NONE
  end.

Definition label_flip (l : Label) : Label :=
  mkLabel (tl_flip (elt0 l)) (tl_flip (elt1 l)).

Definition label_merge (l m : Label) : Label :=
  mkLabel (tl_merge (elt0 l) (elt0 m)) (tl_merge (elt1 l) (elt1 m)).

Global Instance ops : LabelOps Label :=
  {| getLocation := label_get; flip := label_flip; merge := label_merge |}.

(** The label of an offset curve of geometry 0. *)
Definition curveLabel (on left right : Location) : Label :=
  mkLabel (mkTL on left right) noLocation.

End TopoLabel.

Section Edges.

Context {Label : Type} `{LabelOps Label}.

(** Modelled from the spec: [geomgraph::Edge] (Edge.cpp is outside the
    sources), a coordinate chain, a label and a depth delta. *)
Record Edge : Type := mkEdge {
  getCoordinates : list Coordinate;
  getLabel : Label;
  getDepthDelta : Z
}.

(** [new Edge(cs, label)]: the depth delta starts at 0. *)
Definition newEdge (cs : list Coordinate) (l : Label) : Edge := mkEdge cs l 0.

Definition setDepthDelta (d : Z) (e : Edge) : Edge :=
  mkEdge (getCoordinates e) (getLabel e) d.

Definition setLabel (l : Label) (e : Edge) : Edge :=
  mkEdge (getCoordinates e) l (getDepthDelta e).

(** Pointwise comparison of two coordinate chains with [equals2D]. *)
Fixpoint chainEqual (ps qs : list Coordinate) : bool :=
  match ps, qs with
  | [], [] => true
  | p :: ps', q :: qs' => equals2D p q && chainEqual ps' qs'
  | _, _ => false
  end.

(** Modelled from the spec: [Edge::isPointwiseEqual] compares the two
    chains point by point, in the same direction. *)
Definition isPointwiseEqual (e1 e2 : Edge) : bool :=
  chainEqual (getCoordinates e1) (getCoordinates e2).

(** Modelled from the spec: edge equality as the edge list sees it
    (EdgeList.cpp is outside the sources): two edges are equal when their
    coordinate chains are identical or reverse-identical. *)
Definition equalEdge (e1 e2 : Edge) : bool :=
  chainEqual (getCoordinates e1) (getCoordinates e2)
  || chainEqual (getCoordinates e1) (rev (getCoordinates e2)).

(** The edge list owns its edges; an [Edge*] into it is an index. *)
Local Abbreviation EdgeList := (list Edge).

(** Modelled from the spec: [EdgeList::findEqualEdge] returns a
    previously inserted edge equal (forward or reverse) to [e], else
    null. *)
Fixpoint findEqualEdge (el : EdgeList) (e : Edge) : option nat :=
  match el with
  | [] => None
  | ex :: el' =>
      if equalEdge ex e then Some O
      else S <$> findEqualEdge el' e
  end.

(** [EdgeList::add]. *)
Definition add (e : Edge) (el : EdgeList) : EdgeList := el ++ [e].

(** [BufferBuilder::depthDelta]. *)
Definition depthDelta (label : Label) : Z :=
  let lLoc := getLocation label 0 LEFT in
  let rLoc := getLocation label 0 RIGHT in
  if bool_decide (lLoc = INTERIOR) && bool_decide (rLoc = EXTERIOR) then 1
  else if bool_decide (lLoc = EXTERIOR) && bool_decide (rLoc = INTERIOR) then -1
  else 0.

(** [BufferBuilder::insertUniqueEdge], as a function of the edge list. *)
Definition insertUniqueEdge (e : Edge) (edgeList : EdgeList) : EdgeList :=
  match findEqualEdge edgeList e with
  | Some i =>
      match edgeList !! i with
      | Some existingEdge =>
          let existingLabel := getLabel existingEdge in
          let labelToMerge := getLabel e in
          let labelToMerge :=
            if negb (isPointwiseEqual existingEdge e)
            then flip (getLabel e) else labelToMerge in
          let existingLabel := merge existingLabel labelToMerge in
          let mergeDelta := depthDelta labelToMerge in
          let existingDelta := getDepthDelta existingEdge in
          let newDelta := int_add existingDelta mergeDelta in
          <[i := setDepthDelta newDelta (setLabel existingLabel existingEdge)]>
            edgeList
      | None => edgeList
      end
  | None =>
      let edgeList := add e edgeList in
      alter (fun e => setDepthDelta (depthDelta (getLabel e)) e)
            (length edgeList - 1)%nat edgeList
  end.

End Edges.

Arguments Edge Label : clear implicits.
Abbreviation EdgeList Label := (list (Edge Label)).

(** ** The edge list under [insertUniqueEdge] *)

Section EdgeFacts.

Context {Label : Type} `{LabelOps Label}.

Implicit Types (e ex : Edge Label) (el : EdgeList Label).

Lemma findEqualEdge_Some el e i :
  findEqualEdge el e = Some i ->
  exists ex, el !! i = Some ex /\ equalEdge ex e = true.
Proof.
  revert i. induction el as [|a el IH]; intros i; simpl; [discriminate|].
  destruct (equalEdge a e) eqn:Ha.
  - intros [= <-]. eauto.
  - destruct (findEqualEdge el e) as [j|]; simpl; [|discriminate].
    intros [= <-]. exact (IH j eq_refl).
Qed.

Lemma findEqualEdge_None el e :
  findEqualEdge el e = None <-> (forall ex, ex ∈ el -> equalEdge ex e = false).
Proof.
  induction el as [|a el IH]; simpl.
  - split; [intros _ ex Hex; inversion Hex | reflexivity].
  - destruct (equalEdge a e) eqn:Ha.
    + split; [discriminate|]. intros Hall.
      rewrite (Hall a) in Ha by constructor. discriminate.
    + destruct (findEqualEdge el e) as [j|]; simpl.
      * split; [discriminate|]. intros Hall.
        apply proj2 in IH. discriminate IH.
        intros ex Hex. apply Hall. by constructor.
      * split; [|reflexivity]. intros _ ex Hex.
        apply elem_of_cons in Hex as [->|Hex]; [exact Ha|].
        by apply IH.
Qed.

Lemma findEqualEdge_found el e :
  (exists ex, ex ∈ el /\ equalEdge ex e = true) ->
  exists i, findEqualEdge el e = Some i.
Proof.
  intros (ex & Hin & Heq).
  destruct (findEqualEdge el e) as [i|] eqn:Hf; [eauto|].
  rewrite (proj1 (findEqualEdge_None el e) Hf ex Hin) in Heq. discriminate.
Qed.

(** The label an incoming edge contributes to an existing equal edge. *)
Definition incomingLabel ex e : Label :=
  if isPointwiseEqual ex e then getLabel e else flip (getLabel e).

Lemma insertUniqueEdge_existing el e i ex :
  findEqualEdge el e = Some i ->
  el !! i = Some ex ->
  insertUniqueEdge e el =
    <[i := mkEdge (getCoordinates ex)
                  (merge (getLabel ex) (incomingLabel ex e))
                  (int_add (getDepthDelta ex) (depthDelta (incomingLabel ex e)))]> el.
Proof.
  intros Hf Hi. unfold insertUniqueEdge, incomingLabel.
  rewrite Hf, Hi. by destruct (isPointwiseEqual ex e).
Qed.

Lemma insertUniqueEdge_fresh el e :
  findEqualEdge el e = None ->
  insertUniqueEdge e el = el ++ [setDepthDelta (depthDelta (getLabel e)) e].
Proof.
  intros Hf. unfold insertUniqueEdge, add. rewrite Hf.
  rewrite length_app. simpl.
  replace (length el + 1 - 1)%nat with (length el + 0)%nat by lia.
  by rewrite alter_app_r.
Qed.

(** C1: when the edge list already holds an edge equal to the inserted one
    (identical or reverse-identical chain), the incoming label is flipped
    exactly when the two edges are not pointwise equal, the possibly flipped
    label is merged into the label of the existing edge, the depth delta of
    the existing edge becomes its previous value plus the depth delta of the
    possibly flipped label (an [int] addition, exact while the sum is an
    [int]), and the edge list keeps its length: nothing is added. *)
Theorem insertUniqueEdge_merges_duplicate el e :
  (exists ex, ex ∈ el /\ equalEdge ex e = true) ->
  exists i existing,
    el !! i = Some existing /\ equalEdge existing e = true /\
    let incoming :=
      if isPointwiseEqual existing e then getLabel e else flip (getLabel e) in
    let delta := depthDelta incoming in
    insertUniqueEdge e el =
      <[i := mkEdge (getCoordinates existing)
                    (merge (getLabel existing) incoming)
                    (int_add (getDepthDelta existing) delta)]> el /\
    (in_int (getDepthDelta existing + delta) ->
     getDepthDelta <$> insertUniqueEdge e el !! i =
       Some (getDepthDelta existing + delta)) /\
    length (insertUniqueEdge e el) = length el /\
    (forall j, j <> i -> insertUniqueEdge e el !! j = el !! j).
Proof.
  intros Hex. destruct (findEqualEdge_found el e Hex) as [i Hf].
  destruct (findEqualEdge_Some el e i Hf) as (existing & Hi & Heq).
  exists i, existing. split; [exact Hi|]. split; [exact Heq|].
  cbv zeta. pose proof (insertUniqueEdge_existing el e i existing Hf Hi) as Hins.
  unfold incomingLabel in Hins. rewrite Hins.
  split; [reflexivity|]. split; [|split].
  - intros Hrange. rewrite list_lookup_insert_eq by (by eapply lookup_lt_Some).
    simpl. by rewrite int_add_exact.
  - by rewrite length_insert.
  - intros j Hj. by rewrite list_lookup_insert_ne.
Qed.

(** C2: [depthDelta] is +1 for a label whose geometry-0 locations are
    LEFT = INTERIOR and RIGHT = EXTERIOR, -1 for LEFT = EXTERIOR and
    RIGHT = INTERIOR, and 0 in every other case; and an edge inserted while
    the list holds no equal edge is appended with its depth delta set to
    [depthDelta] of its own label. *)
Theorem depthDelta_of_label_and_new_edge (label : Label) :
  let lLoc := getLocation label 0 LEFT in
  let rLoc := getLocation label 0 RIGHT in
  (lLoc = INTERIOR /\ rLoc = EXTERIOR -> depthDelta label = 1) /\
  (lLoc = EXTERIOR /\ rLoc = INTERIOR -> depthDelta label = -1) /\
  (~ (lLoc = INTERIOR /\ rLoc = EXTERIOR) ->
   ~ (lLoc = EXTERIOR /\ rLoc = INTERIOR) -> depthDelta label = 0) /\
  (forall el e,
     getLabel e = label ->
     (forall ex, ex ∈ el -> equalEdge ex e = false) ->
     let e' := mkEdge (getCoordinates e) label (depthDelta label) in
     insertUniqueEdge e el = el ++ [e'] /\
     getDepthDelta e' = depthDelta (getLabel e')).
Proof.
  cbv zeta. unfold depthDelta at 1 2 3.
  split; [|split; [|split]].
  - intros [-> ->]. reflexivity.
  - intros [-> ->]. reflexivity.
  - intros H1 H2.
    destruct (getLocation label 0 LEFT), (getLocation label 0 RIGHT);
      simpl; try reflexivity; tauto.
  - intros el e <- Hnone. apply findEqualEdge_None in Hnone.
    rewrite (insertUniqueEdge_fresh _ _ Hnone). split; reflexivity.
Qed.

End EdgeFacts.

(** Sample edges over the concrete labels. *)
Module EdgeSamples.

Import TopoLabel.

(** An offset curve with the interior on its left. *)
Definition forwardEdge : Edge Label :=
  mkEdge [xy 0 0; xy 1 0; xy 1 1] (curveLabel BOUNDARY INTERIOR EXTERIOR) 1.

(** The same chain walked backwards, interior on its right. *)
Definition reversedEdge : Edge Label :=
  newEdge [xy 1 1; xy 1 0; xy 0 0] (curveLabel BOUNDARY EXTERIOR INTERIOR).

Definition otherEdge : Edge Label :=
  newEdge [xy 5 5; xy 6 5] (curveLabel BOUNDARY EXTERIOR INTERIOR).

Example insert_reversed :
  insertUniqueEdge reversedEdge [forwardEdge] =
    [mkEdge [xy 0 0; xy 1 0; xy 1 1] (curveLabel BOUNDARY INTERIOR EXTERIOR) 2].
Proof. vm_compute. reflexivity. Qed.

Example insert_other :
  insertUniqueEdge otherEdge [forwardEdge] =
    [forwardEdge;
     mkEdge [xy 5 5; xy 6 5] (curveLabel BOUNDARY EXTERIOR INTERIOR) (-1)].
Proof. vm_compute. reflexivity. Qed.

Lemma insertUniqueEdge_merges_duplicate_witness :
  (exists ex, ex ∈ [forwardEdge] /\ equalEdge ex reversedEdge = true) /\
  length (insertUniqueEdge reversedEdge [forwardEdge]) = 1%nat.
Proof.
  assert (Hex : exists ex, ex ∈ [forwardEdge] /\ equalEdge ex reversedEdge = true).
  { exists forwardEdge. split; [constructor | vm_compute; reflexivity]. }
  split; [exact Hex|].
  destruct (insertUniqueEdge_merges_duplicate [forwardEdge] reversedEdge Hex)
    as (i & ex & _ & _ & _ & _ & Hlen & _).
  exact Hlen.
Defined.

Lemma depthDelta_of_label_and_new_edge_witness :
  depthDelta (curveLabel BOUNDARY EXTERIOR INTERIOR) = -1 /\
  insertUniqueEdge otherEdge [forwardEdge] =
    [forwardEdge;
     mkEdge [xy 5 5; xy 6 5] (curveLabel BOUNDARY EXTERIOR INTERIOR) (-1)].
Proof.
  destruct (depthDelta_of_label_and_new_edge (curveLabel BOUNDARY EXTERIOR INTERIOR))
    as (_ & Hminus & _ & Hnew).
  split; [apply Hminus; split; reflexivity|].
  refine (proj1 (Hnew [forwardEdge] otherEdge eq_refl _)).
  intros ex Hex. apply list_elem_of_singleton in Hex as ->.
  vm_compute. reflexivity.
Defined.

End EdgeSamples.

(** ** Segment strings, parameters and the classes the builder drives *)

(** [noding::SegmentString]: a coordinate sequence and the user data
    attached to it (a [Label] for buffer curves, nothing for the raw
    single-sided curve). *)
Record SegmentString (D : Type) : Type := mkSegmentString {
  ss_coords : list Coordinate;
  ss_data : D
}.
Arguments mkSegmentString {D} _ _.
Arguments ss_coords {D} _.
Arguments ss_data {D} _.

(** A noder: [computeNodes] followed by [getNodedSubstrings]. *)
Definition Noder : Type :=
  forall D : Type, list (SegmentString D) -> Result (list (SegmentString D)).

Inductive EndCapStyle : Type := CAP_ROUND | CAP_FLAT | CAP_SQUARE.
Inductive JoinStyle : Type := JOIN_ROUND | JOIN_MITRE | JOIN_BEVEL.

(** Modelled from the spec: [BufferParameters] (its header is outside the
    sources), the configuration record of section 3. *)
Record BufferParameters : Type := mkBufferParameters {
  endCapStyle : EndCapStyle;
  joinStyle : JoinStyle;
  quadrantSegments : Z;
  mitreLimit : float;
  isSingleSided : bool;
  simplifyFactor : float
}.

Definition setEndCapStyle (s : EndCapStyle) (p : BufferParameters) : BufferParameters :=
  mkBufferParameters s (joinStyle p) (quadrantSegments p) (mitreLimit p)
                     (isSingleSided p) (simplifyFactor p).

Definition setSingleSided (b : bool) (p : BufferParameters) : BufferParameters :=
  mkBufferParameters (endCapStyle p) (joinStyle p) (quadrantSegments p)
                     (mitreLimit p) b (simplifyFactor p).

(** Modelled from the spec: [RepeatedPointRemover::removeRepeatedPoints]
    (outside the sources) removes repeated consecutive points: a point is
    kept unless it [equals2D] the last point kept. *)
Fixpoint removeRepeatedAfter (prev : Coordinate) (pts : list Coordinate)
  : list Coordinate :=
  match pts with
  | [] => []
  | curr :: pts' =>
      if equals2D curr prev then removeRepeatedAfter prev pts'
      else curr :: removeRepeatedAfter curr pts'
  end.

Definition removeRepeatedPoints (pts : list Coordinate) : list Coordinate :=
  match pts with
  | [] => []
  | first :: pts' => first :: removeRepeatedAfter first pts'
  end.

(** The classes of the library that [BufferBuilder.cpp] calls and that are
    defined elsewhere.  Calls that report failures by a [GEOSException]
    return a [Result]. *)
Class Collaborators (Label : Type) : Type := {
  (** [BufferCurveSetBuilder(g, distance, pm, params)], with its
      orientation flag, then [getCurves()]. *)
  getCurves : Geometry -> float -> PrecisionModel -> BufferParameters -> bool ->
              list (SegmentString Label);
  (** [MCIndexNoder] over an [IntersectionAdder] whose [LineIntersector] is
      bound to the precision model. *)
  MCIndexNoder : PrecisionModel -> Noder;
  (** [PlanarGraph] with its nodes. *)
  PlanarGraph : Type;
  Node : Type;
  addEdges : list (Edge Label) -> Result PlanarGraph;
  getNodes : PlanarGraph -> list Node;
  isVisited : PlanarGraph -> Node -> bool;
  (** [BufferSubgraph]: [create] collects the component of a node and marks
      its nodes visited in the graph. *)
  BufferSubgraph : Type;
  create : Node -> PlanarGraph -> BufferSubgraph * PlanarGraph;
  compareTo : BufferSubgraph -> BufferSubgraph -> Z;
  getRightmostCoordinate : BufferSubgraph -> Coordinate;
  computeDepth : Z -> BufferSubgraph -> Result BufferSubgraph;
  findResultEdges : BufferSubgraph -> BufferSubgraph;
  (** [SubgraphDepthLocater(&processedGraphs).getDepth(p)]. *)
  getDepth : list BufferSubgraph -> Coordinate -> Z;
  (** [PolygonBuilder]. *)
  PolygonBuilder : Type;
  newPolygonBuilder : GeometryFactory -> PolygonBuilder;
  addSubgraph : BufferSubgraph -> PolygonBuilder -> Result PolygonBuilder;
  getPolygons : PolygonBuilder -> list Geometry;
  (** Geometry operations. *)
  buildGeometry : GeometryFactory -> list Geometry -> Geometry;
  getDimension : Geometry -> Z;
  getBoundary : Geometry -> Geometry;
  getArea : Geometry -> float;
  getLength : Geometry -> float;
  (** [OverlayNG::overlay(a, b, UNION)], [Polygonizer], [UnaryUnionOp],
      [SnapOverlayOp::overlayOp(a, b, INTERSECTION)], [LineMerger]. *)
  overlayUnion : Geometry -> Geometry -> Result Geometry;
  polygonize : Geometry -> list Geometry;
  unaryUnion : list Geometry -> Result Geometry;
  snapIntersection : Geometry -> Geometry -> Result Geometry;
  getMergedLineStrings : Geometry -> list (list Coordinate);
  (** [OffsetCurveBuilder(pm, params).getSingleSidedLineCurve(coords,
      distance, lineList, leftSide, rightSide)]. *)
  getSingleSidedLineCurve : PrecisionModel -> BufferParameters ->
                            list Coordinate -> float -> bool -> bool ->
                            list (list Coordinate)
}.

(** ** The builder *)

Section Builder.

Context {Label : Type} `{LabelOps Label} `{Collaborators Label}.

(** The fields of a [BufferBuilder].  [li] records the precision model the
    builder's [LineIntersector] (and the [IntersectionAdder] around it) is
    bound to, once they exist. *)
Record BufferBuilder : Type := mkBufferBuilder {
  bufParams : BufferParameters;
  workingPrecisionModel : option PrecisionModel;
  workingNoder : option Noder;
  li : option PrecisionModel;
  geomFact : option GeometryFactory;
  edgeList : EdgeList Label;
  isInvertOrientation : bool
}.

(** Modelled from the spec: the constructor [BufferBuilder(params)] (its
    header is outside the sources): a fresh builder holds the parameters
    and nothing else. *)
Definition newBufferBuilder (params : BufferParameters) : BufferBuilder :=
  mkBufferBuilder params None None None None [] false.

Definition set_li (pm : PrecisionModel) (bb : BufferBuilder) : BufferBuilder :=
  mkBufferBuilder (bufParams bb) (workingPrecisionModel bb) (workingNoder bb)
                  (Some pm) (geomFact bb) (edgeList bb) (isInvertOrientation bb).

Definition set_geomFact (f : GeometryFactory) (bb : BufferBuilder) : BufferBuilder :=
  mkBufferBuilder (bufParams bb) (workingPrecisionModel bb) (workingNoder bb)
                  (li bb) (Some f) (edgeList bb) (isInvertOrientation bb).

Definition set_edgeList (el : EdgeList Label) (bb : BufferBuilder) : BufferBuilder :=
  mkBufferBuilder (bufParams bb) (workingPrecisionModel bb) (workingNoder bb)
                  (li bb) (geomFact bb) el (isInvertOrientation bb).

(** A method of the builder: it returns or throws, and leaves the builder
    in a new state either way. *)
Definition Method (A : Type) : Type := BufferBuilder -> Result A * BufferBuilder.

(** [BufferBuilder::getNoder]. *)
Definition getNoder (pm : PrecisionModel) : BufferBuilder -> Noder * BufferBuilder :=
  fun bb =>
    match workingNoder bb with
    | Some noder => (noder, bb)
    | None => (MCIndexNoder pm, set_li pm bb)
    end.

(** One turn of the loop of [computeNodedEdges] over the noded
    substrings. *)
Definition insertNodedSubstring (edgeList : EdgeList Label)
    (segStr : SegmentString Label) : EdgeList Label :=
  let oldLabel := ss_data segStr in
  let cs := removeRepeatedPoints (ss_coords segStr) in
  if (length cs <? 2)%nat then edgeList
  else insertUniqueEdge (newEdge cs oldLabel) edgeList.

(** [BufferBuilder::computeNodedEdges]. *)
Definition computeNodedEdges (bufferSegStrList : list (SegmentString Label))
    (pm : PrecisionModel) : Method unit :=
  fun bb =>
    let '(noder, bb) := getNoder pm bb in
    match noder Label bufferSegStrList with
    | Ok nodedSegStrings =>
        (Ok tt,
         set_edgeList (fold_left insertNodedSubstring nodedSegStrings (edgeList bb)) bb)
    | Throw e => (Throw e, bb)
    | Undefined => (Undefined, bb)
    end.

(** [BufferSubgraphGT]. *)
Definition BufferSubgraphGT (first second : BufferSubgraph) : bool :=
  if (compareTo first second >? 0)%Z then true else false.

(** [std::sort(first, last, comp)], modelled by insertion: an element is
    placed before the first element it must precede.  The order of elements
    that [comp] does not separate is left open by C++, and what is stated of
    a sorted list below holds in whatever order the sort leaves them: that
    it is a permutation, and that it is sorted by [comp]. *)
Fixpoint insertBefore {A : Type} (comp : A -> A -> bool) (x : A) (l : list A)
  : list A :=
  match l with
  | [] => [x]
  | y :: l' => if comp x y then x :: y :: l' else y :: insertBefore comp x l'
  end.

Definition std_sort {A : Type} (comp : A -> A -> bool) (l : list A) : list A :=
  fold_left (fun sorted x => insertBefore comp x sorted) l [].

(** One turn of the node loop of [createSubgraphs]. *)
Definition collectSubgraph (st : PlanarGraph * list BufferSubgraph) (node : Node)
  : PlanarGraph * list BufferSubgraph :=
  let '(graph, subgraphList) := st in
  if negb (isVisited graph node) then
    let '(subgraph, graph) := create node graph in
    (graph, subgraphList ++ [subgraph])
  else (graph, subgraphList).

(** [BufferBuilder::createSubgraphs]: the graph with its nodes marked, and
    the subgraph list. *)
Definition createSubgraphs (graph : PlanarGraph) (subgraphList : list BufferSubgraph)
  : PlanarGraph * list BufferSubgraph :=
  let nodes := getNodes graph in
  let '(graph, subgraphList) :=
    fold_left collectSubgraph nodes (graph, subgraphList) in
  (graph, std_sort BufferSubgraphGT subgraphList).

(** The state of the loop of [buildSubgraphs].  The subgraphs are objects
    shared by [subgraphList] and [processedGraphs]: [subgraphs] holds the
    objects in the order of [subgraphList], and a pointer to one of them is
    its position. *)
Record BuildState : Type := mkBuildState {
  subgraphs : list BufferSubgraph;
  processedGraphs : list nat;
  polyBuilder : PolygonBuilder
}.

(** The subgraphs a list of pointers refers to. *)
Definition pointees (objs : list BufferSubgraph) (ptrs : list nat)
  : list BufferSubgraph :=
  omap (fun p => objs !! p) ptrs.

(** The depth query of turn [i]: what the locater is built over, and the
    point it is asked about. *)
Definition depthQuery (st : BuildState) (subgraph : BufferSubgraph)
  : list BufferSubgraph * Coordinate :=
  (pointees (subgraphs st) (processedGraphs st), getRightmostCoordinate subgraph).

(** Turn [i] of the loop of [buildSubgraphs]. *)
Definition buildSubgraph (st : BuildState) (i : nat) : Result BuildState :=
  let* subgraph := deref (subgraphs st !! i) in
  let '(locater, p) := depthQuery st subgraph in
  let outsideDepth := getDepth locater p in
  let* subgraph := computeDepth outsideDepth subgraph in
  let subgraph := findResultEdges subgraph in
  let objs := <[i := subgraph]> (subgraphs st) in
  let processed := processedGraphs st ++ [i] in
  let* pb := addSubgraph subgraph (polyBuilder st) in
  Ok (mkBuildState objs processed pb).

(** Runs the turns [ixs] of a loop in order. *)
Fixpoint runTurns {S : Type} (turn : S -> nat -> Result S) (ixs : list nat) (st : S)
  : Result S :=
  match ixs with
  | [] => Ok st
  | i :: ixs' => let* st := turn st i in runTurns turn ixs' st
  end.

(** [BufferBuilder::buildSubgraphs]. *)
Definition buildSubgraphs (subgraphList : list BufferSubgraph)
    (polyBuilder : PolygonBuilder) : Result BuildState :=
  let n := length subgraphList in
  runTurns buildSubgraph (seq 0 n) (mkBuildState subgraphList [] polyBuilder).

(** [BufferBuilder::createEmptyResultGeometry]. *)
Definition createEmptyResultGeometry (bb : BufferBuilder) : Result Geometry :=
  let* geomFact := deref (geomFact bb) in
  Ok (createPolygon geomFact).

(** One turn of the search for the polygon of largest area: the iterator
    to the biggest polygon so far (none at first) and its area. *)
Definition largerPolygon (st : option Geometry * float) (poly : Geometry)
  : option Geometry * float :=
  let '(biggestPolygon, maxArea) := st in
  let area := getArea poly in
  if (maxArea <? area)%float then (Some poly, area) else (biggestPolygon, maxArea).

Definition biggestPolygon (polys : list Geometry) : option Geometry :=
  fst (fold_left largerPolygon polys (None, 0%float)).

(** The clean-up of single-sided artifacts at the end of [buffer]. *)
Definition cleanupSingleSided (g resultGeom : Geometry) : Result Geometry :=
  let inputLineString := if (getDimension g >? 1)%Z then getBoundary g else g in
  let bufferBoundary := getBoundary resultGeom in
  let* nodedLinework := overlayUnion inputLineString bufferBoundary in
  let polys := polygonize nodedLinework in
  if (1 <? length polys)%nat then
    match biggestPolygon polys with
    | Some gg => Ok gg
    | None => Ok resultGeom
    end
  else Ok resultGeom.

(** The working precision model, or else the one of the input. *)
Definition selectPrecisionModel (bb : BufferBuilder) (g : Geometry) : PrecisionModel :=
  match workingPrecisionModel bb with
  | Some pm => pm
  | None => getPrecisionModel g
  end.

(** The end of [buffer]: the polygons become the result geometry, cleaned
    up when [singleSided] is on; without polygons the result is empty. *)
Definition finishResult (g : Geometry) (bb : BufferBuilder)
    (geomFact : GeometryFactory) (resultPolyList : list Geometry) : Result Geometry :=
  match resultPolyList with
  | [] => createEmptyResultGeometry bb
  | _ :: _ =>
      let resultGeom := buildGeometry geomFact resultPolyList in
      if isSingleSided (bufParams bb) then cleanupSingleSided g resultGeom
      else Ok resultGeom
  end.

(** The graph stage of [buffer]: from the edge list to the result.  The
    graph takes the edges of the edge list over and releases them with
    itself when the stage ends; the edge list of the builder is not read
    after this stage. *)
Definition buildResult (g : Geometry) (bb : BufferBuilder) : Result Geometry :=
  let* graph := addEdges (edgeList bb) in
  let '(graph, subgraphList) := createSubgraphs graph [] in
  let* geomFact := deref (geomFact bb) in
  let* st := buildSubgraphs subgraphList (newPolygonBuilder geomFact) in
  let resultPolyList := getPolygons (polyBuilder st) in
  finishResult g bb geomFact resultPolyList.

(** [BufferBuilder::buffer] past its first test: one geometry buffered by
    this builder. *)
Definition bufferWhole (g : Geometry) (distance : float) : Method Geometry :=
  fun bb =>
    let precisionModel := selectPrecisionModel bb g in
    let bb := set_geomFact (getFactory g) bb in
    let bufferSegStrList :=
      getCurves g distance precisionModel (bufParams bb) (isInvertOrientation bb) in
    match bufferSegStrList with
    | [] => (createEmptyResultGeometry bb, bb)
    | _ :: _ =>
        match computeNodedEdges bufferSegStrList precisionModel bb with
        | (Ok _, bb) => (buildResult g bb, bb)
        | (Throw e, bb) => (Throw e, bb)
        | (Undefined, bb) => (Undefined, bb)
        end
    end.

(** [BufferBuilder::buffer].  With [singleSided] on and more than one
    component (only a collection has more than one), each component goes
    through a builder of its own and the results are united. *)
Fixpoint buffer (g : Geometry) (distance : float) (bb : BufferBuilder)
  : Result Geometry * BufferBuilder :=
  match g with
  | Collection _ _ geoms =>
      if isSingleSided (bufParams bb) && (1 <? length geoms)%nat then
        (let* geoms_to_delete :=
           mapM (fun subgeom =>
                   let subbuilder := newBufferBuilder (bufParams bb) in
                   fst (buffer subgeom distance subbuilder)) geoms in
         unaryUnion geoms_to_delete, bb)
      else bufferWhole g distance bb
  | _ => bufferWhole g distance bb
  end.

(** ** The single-sided line *)

(** [std::size_t] arithmetic. *)
Definition size_add (a b : Z) : Z := wrap_size (a + b).
Definition size_sub (a b : Z) : Z := wrap_size (a - b).
Definition size (coords : list Coordinate) : Z := Z.of_nat (length coords).

(** [CoordinateSequence::getAt]; the source never reads out of range, where
    this returns a coordinate of NaNs. *)
Fixpoint getAt (coords : list Coordinate) (i : Z) : Coordinate :=
  match coords with
  | [] => xy nan nan
  | c :: coords' => if (i =? 0)%Z then c else getAt coords' (i - 1)
  end.

(** [std::max] on doubles. *)
Definition std_max (a b : float) : float := if (a <? b)%float then b else a.

(** The two loops that clean up the front of a merged line, one per
    reference point: [front] advances while more than one point remains,
    the front point is nearer to [refPoint] than the allowance and the first
    segment is not longer than its allowance.  A turn removes a point, so
    [length coords] turns of [fuel] are never used up. *)
Fixpoint trimFront (fuel : nat) (coords : list Coordinate) (refPoint : Coordinate)
    (ptDistAllowance segLengthAllowance : float) (front sz : Z) : Z * Z :=
  match fuel with
  | O => (front, sz)
  | S fuel' =>
      if (1 <? sz)%Z then
        if (distance (getAt coords front) refPoint <? ptDistAllowance)%float then
          let segLength :=
            distance (getAt coords front) (getAt coords (size_add front 1)) in
          if (segLengthAllowance <? segLength)%float then (front, sz)
          else trimFront fuel' coords refPoint ptDistAllowance segLengthAllowance
                         (size_add front 1) (size_sub sz 1)
        else (front, sz)
      else (front, sz)
  end.

(** The two loops that clean up the back. *)
Fixpoint trimBack (fuel : nat) (coords : list Coordinate) (refPoint : Coordinate)
    (ptDistAllowance segLengthAllowance : float) (back sz : Z) : Z * Z :=
  match fuel with
  | O => (back, sz)
  | S fuel' =>
      if (1 <? sz)%Z then
        if (distance (getAt coords back) refPoint <? ptDistAllowance)%float then
          let segLength :=
            distance (getAt coords back) (getAt coords (size_sub back 1)) in
          if (segLengthAllowance <? segLength)%float then (back, sz)
          else trimBack fuel' coords refPoint ptDistAllowance segLengthAllowance
                        (size_sub back 1) (size_sub sz 1)
        else (back, sz)
      else (back, sz)
  end.

#[warnings="-inexact-float"]
Definition ptDistAllowanceOf (distance lineLength : float) : float :=
  std_max (distance - lineLength * 0.1)%float (distance * 0.98)%float.

#[warnings="-inexact-float"]
Definition segLengthAllowanceOf (distance : float) : float := (1.02 * distance)%float.

(** The body of the loop over the merged lines: the coordinates of one
    merged line with its end points trimmed, or nothing when at most one
    point is left. *)
Definition trimEndPoints (startPoint endPoint : Coordinate)
    (distance lineLength : float) (coords : list Coordinate)
  : option (list Coordinate) :=
  let ptDistAllowance := ptDistAllowanceOf distance lineLength in
  let segLengthAllowance := segLengthAllowanceOf distance in
  let fuel := length coords in
  let front := 0%Z in
  let back := size_sub (size coords) 1 in
  let sz := size_add (size_sub back front) 1 in
  let '(front, sz) :=
    trimFront fuel coords startPoint ptDistAllowance segLengthAllowance front sz in
  let '(front, sz) :=
    trimFront fuel coords endPoint ptDistAllowance segLengthAllowance front sz in
  let '(back, sz) :=
    trimBack fuel coords startPoint ptDistAllowance segLengthAllowance back sz in
  let '(back, sz) :=
    trimBack fuel coords endPoint ptDistAllowance segLengthAllowance back sz in
  if (1 <? sz)%Z then
    if (sz <? size coords)%Z then
      Some ((fun i => getAt coords (size_add i front)) <$> seqZ 0 sz)
    else Some coords
  else None.

(** The loop over the merged lines, which takes them from the back. *)
Definition trimMergedLines (geomFact : GeometryFactory)
    (startPoint endPoint : Coordinate) (distance lineLength : float)
    (mergedLines : list (list Coordinate)) : list Geometry :=
  omap (fun coords =>
          createLineString geomFact
            <$> trimEndPoints startPoint endPoint distance lineLength coords)
       (rev mergedLines).

(** The return statement of [bufferLineSingleSided]. *)
Definition lineResult (geomFact : GeometryFactory) (mergedLinesGeom : list Geometry)
  : Geometry :=
  if (1 <? length mergedLinesGeom)%nat then
    createMultiLineString geomFact mergedLinesGeom
  else
    match mergedLinesGeom with
    | [single] => single
    | _ => createEmptyLineString geomFact
    end.

(** The middle of [bufferLineSingleSided]: the raw offset curve is noded
    and made a multi-line, which is intersected with the boundary of the
    flat-capped buffer; the lines of the intersection are merged. *)
Definition intersectMergedLines (geomFact : GeometryFactory) (noder : Noder)
    (curveList : list (SegmentString unit)) (bufLineString : Geometry)
  : Result (list (list Coordinate)) :=
  let* nodedEdges := noder unit curveList in
  let singleSidedNodedEdges :=
    (fun ss => createLineString geomFact (ss_coords ss)) <$> nodedEdges in
  let singleSided := createMultiLineString geomFact singleSidedNodedEdges in
  let* intersectedLines := snapIntersection singleSided bufLineString in
  Ok (getMergedLineStrings intersectedLines).

(** [bufferLineSingleSided] from the noding of the raw offset curve on.
    The references to the first and last point of the input are formed
    even for an empty line, where no loop reads them. *)
Definition singleSidedLine (g : Geometry) (l : list Coordinate) (distance : float)
    (noder : Noder) (curveList : list (SegmentString unit))
    (bufLineString : Geometry) (bb : BufferBuilder) : Result Geometry :=
  let* geomFact := deref (geomFact bb) in
  let* mergedLines := intersectMergedLines geomFact noder curveList bufLineString in
  let startPoint := getAt l 0 in
  let endPoint := getAt l (size_sub (size l) 1) in
  let mergedLinesGeom :=
    trimMergedLines geomFact startPoint endPoint distance (getLength g) mergedLines in
  Ok (lineResult geomFact mergedLinesGeom).

(** [BufferBuilder::bufferLineSingleSided]. *)
Definition bufferLineSingleSided (g : Geometry) (distance : float) (leftSide : bool)
  : Method Geometry :=
  fun bb =>
    match asLineString g with
    | None =>
        (Throw (IllegalArgumentException
                  "BufferBuilder::bufferLineSingleSided only accept linestrings"), bb)
    | Some l =>
        if (distance =? 0)%float then (Ok (clone g), bb)
        else
          let precisionModel := selectPrecisionModel bb g in
          let bb := set_geomFact (getFactory g) bb in
          let modParams := setSingleSided false (setEndCapStyle CAP_FLAT (bufParams bb)) in
          let tmpBB := newBufferBuilder modParams in
          match fst (buffer g distance tmpBB) with
          | Ok buf =>
              let bufLineString := getBoundary buf in
              let lineList :=
                getSingleSidedLineCurve precisionModel modParams l distance
                                        leftSide (negb leftSide) in
              let curveList := (fun seq => mkSegmentString seq tt) <$> lineList in
              let '(noder, bb) := getNoder precisionModel bb in
              (singleSidedLine g l distance noder curveList bufLineString bb, bb)
          | Throw e => (Throw e, bb)
          | Undefined => (Undefined, bb)
          end
    end.

End Builder.

Arguments BufferBuilder Label : clear implicits.
Arguments Method Label A : clear implicits.

(** ** Noded edges *)

Section NodedEdgeFacts.

Context {Label : Type} `{LabelOps Label} `{Collaborators Label}.

(** No point of the chain [equals2D] the point before it. *)
Fixpoint noRepeatedPoints (pts : list Coordinate) : bool :=
  match pts with
  | prev :: (curr :: _) as pts' => negb (equals2D curr prev) && noRepeatedPoints pts'
  | _ => true
  end.

Definition wellFormedEdge (e : Edge Label) : Prop :=
  (2 <= length (getCoordinates e))%nat /\ noRepeatedPoints (getCoordinates e) = true.

(** The edges [computeNodedEdges] passes to [insertUniqueEdge], in order. *)
Definition handedEdges (nodedSegStrings : list (SegmentString Label))
  : list (Edge Label) :=
  omap (fun segStr =>
          let cs := removeRepeatedPoints (ss_coords segStr) in
          if (length cs <? 2)%nat then None else Some (newEdge cs (ss_data segStr)))
       nodedSegStrings.

Lemma removeRepeatedAfter_noRepeatedPoints prev pts :
  noRepeatedPoints (prev :: removeRepeatedAfter prev pts) = true.
Proof.
  revert prev. induction pts as [|curr pts IH]; intros prev; [reflexivity|].
  cbn [removeRepeatedAfter]. destruct (equals2D curr prev) eqn:Heq.
  - apply IH.
  - change (negb (equals2D curr prev)
            && noRepeatedPoints (curr :: removeRepeatedAfter curr pts) = true).
    rewrite Heq. simpl. apply IH.
Qed.

Lemma removeRepeatedPoints_noRepeatedPoints pts :
  noRepeatedPoints (removeRepeatedPoints pts) = true.
Proof.
  destruct pts as [|first pts]; [reflexivity|].
  apply removeRepeatedAfter_noRepeatedPoints.
Qed.

Lemma handedEdges_wellFormed nodedSegStrings :
  Forall wellFormedEdge (handedEdges nodedSegStrings).
Proof.
  induction nodedSegStrings as [|segStr segs IH]; [constructor|].
  unfold handedEdges. cbn [omap list_omap]. cbv zeta.
  destruct (length (removeRepeatedPoints (ss_coords segStr)) <? 2)%nat eqn:Hlen;
    [exact IH|].
  constructor; [|exact IH].
  apply Nat.ltb_ge in Hlen. split; [exact Hlen|].
  apply removeRepeatedPoints_noRepeatedPoints.
Qed.

Lemma fold_insertNodedSubstring nodedSegStrings (el : EdgeList Label) :
  fold_left insertNodedSubstring nodedSegStrings el =
  fold_left (fun el e => insertUniqueEdge e el) (handedEdges nodedSegStrings) el.
Proof.
  revert el. induction nodedSegStrings as [|segStr segs IH]; intros el; [reflexivity|].
  cbn [fold_left]. rewrite IH. unfold handedEdges at 2. cbn [omap list_omap].
  unfold insertNodedSubstring. cbv zeta.
  destruct (length (removeRepeatedPoints (ss_coords segStr)) <? 2)%nat; reflexivity.
Qed.

Lemma insertUniqueEdge_wellFormed e (el : EdgeList Label) :
  wellFormedEdge e -> Forall wellFormedEdge el ->
  Forall wellFormedEdge (insertUniqueEdge e el).
Proof.
  intros He Hel. destruct (findEqualEdge el e) as [i|] eqn:Hf.
  - destruct (findEqualEdge_Some el e i Hf) as (ex & Hi & _).
    rewrite (insertUniqueEdge_existing el e i ex Hf Hi).
    apply Forall_insert; [exact Hel|].
    exact (proj1 (Forall_lookup _ _) Hel i ex Hi).
  - rewrite (insertUniqueEdge_fresh el e Hf).
    apply Forall_app. split; [exact Hel|]. by constructor.
Qed.

Lemma fold_insertUniqueEdge_wellFormed handed (el : EdgeList Label) :
  Forall wellFormedEdge handed -> Forall wellFormedEdge el ->
  Forall wellFormedEdge (fold_left (fun el e => insertUniqueEdge e el) handed el).
Proof.
  intros Hh. revert el. induction Hh as [|e handed He Hh IH]; intros el Hel;
    [exact Hel|].
  cbn [fold_left]. apply IH. by apply insertUniqueEdge_wellFormed.
Qed.

(** C10: a noded substring that collapses to fewer than 2 points once its
    repeated points are removed leaves the edge list as it is; the edges
    [computeNodedEdges] hands to [insertUniqueEdge] all have at least 2
    coordinates and no repeated consecutive point; and so has every edge of
    the edge list afterwards, when the edges it held before had. *)
Theorem computeNodedEdges_inserts_no_collapsed_edge :
  (forall (el : EdgeList Label) segStr,
     (length (removeRepeatedPoints (ss_coords segStr)) < 2)%nat ->
     insertNodedSubstring el segStr = el) /\
  (forall bufferSegStrList pm (bb : BufferBuilder Label),
     exists handed,
       Forall wellFormedEdge handed /\
       edgeList (snd (computeNodedEdges bufferSegStrList pm bb)) =
         fold_left (fun el e => insertUniqueEdge e el) handed (edgeList bb) /\
       handed =
         match fst (getNoder pm bb) Label bufferSegStrList with
         | Ok nodedSegStrings => handedEdges nodedSegStrings
         | _ => []
         end) /\
  (forall bufferSegStrList pm (bb : BufferBuilder Label),
     Forall wellFormedEdge (edgeList bb) ->
     Forall wellFormedEdge (edgeList (snd (computeNodedEdges bufferSegStrList pm bb)))).
Proof.
  assert (Hmain : forall bufferSegStrList pm (bb : BufferBuilder Label),
     edgeList (snd (computeNodedEdges bufferSegStrList pm bb)) =
       fold_left (fun el e => insertUniqueEdge e el)
         match fst (getNoder pm bb) Label bufferSegStrList with
         | Ok nodedSegStrings => handedEdges nodedSegStrings
         | _ => []
         end (edgeList bb)).
  { intros segs pm bb. unfold computeNodedEdges, getNoder.
    destruct (workingNoder bb) as [noder|]; cbn [fst snd].
    - destruct (noder Label segs); cbn; [apply fold_insertNodedSubstring|done..].
    - destruct (MCIndexNoder pm Label segs); cbn;
        [apply fold_insertNodedSubstring|done..]. }
  assert (Hwf : forall bufferSegStrList pm (bb : BufferBuilder Label),
     Forall wellFormedEdge
       match fst (getNoder pm bb) Label bufferSegStrList with
       | Ok nodedSegStrings => handedEdges nodedSegStrings
       | _ => []
       end).
  { intros segs pm bb. destruct (fst (getNoder pm bb) Label segs);
      [apply handedEdges_wellFormed|constructor..]. }
  split; [|split].
  - intros el segStr Hlen. unfold insertNodedSubstring. cbv zeta.
    apply Nat.ltb_lt in Hlen. by rewrite Hlen.
  - intros segs pm bb. eexists. split; [apply Hwf|]. split; [apply Hmain|reflexivity].
  - intros segs pm bb Hel. rewrite Hmain.
    apply fold_insertUniqueEdge_wellFormed; [apply Hwf|exact Hel].
Qed.

End NodedEdgeFacts.

(** ** Order facts: doubles and [std_sort] *)

Section FloatOrder.

Lemma SFcompare_Lt_irrefl a : SFcompare a a <> Some Lt.
Proof.
  destruct a as [s|s| |s m e]; simpl; try destruct s; try discriminate.
  all: rewrite Z.compare_refl, Pos.compare_cont_refl; discriminate.
Qed.

Lemma SFcompare_Lt_trans a b c :
  SFcompare a b = Some Lt -> SFcompare b c = Some Lt -> SFcompare a c = Some Lt.
Proof.
  destruct a as [sa|sa| |sa ma ea], b as [sb|sb| |sb mb eb], c as [sc|sc| |sc mc ec];
    simpl; try destruct sa; try destruct sb; try destruct sc; simpl;
    try discriminate; try reflexivity; intros Hab Hbc.
  all: change (Pos.compare_cont Eq) with Pos.compare in *.
  all: destruct (Z.compare_spec ea eb), (Z.compare_spec eb ec), (Z.compare_spec ea ec);
       subst; try lia; try discriminate; try reflexivity.
  all: injection Hab as Hab; injection Hbc as Hbc; f_equal.
  all: try (rewrite <- Pos.compare_antisym in *).
  all: rewrite ?Pos.compare_lt_iff, ?Pos.compare_gt_iff in *; try lia.
Qed.

(** [<] on doubles is irreflexive and transitive, NaN included. *)
Lemma float_ltb_irrefl x : (x <? x)%float = false.
Proof.
  rewrite ltb_spec. unfold SFltb.
  pose proof (SFcompare_Lt_irrefl (Prim2SF x)).
  destruct (SFcompare (Prim2SF x) (Prim2SF x)) as [[]|]; congruence.
Qed.

Lemma float_ltb_trans x y z :
  (x <? y)%float = true -> (y <? z)%float = true -> (x <? z)%float = true.
Proof.
  rewrite !ltb_spec. unfold SFltb. intros Hxy Hyz.
  rewrite (SFcompare_Lt_trans (Prim2SF x) (Prim2SF y) (Prim2SF z)); [reflexivity|..].
  - destruct (SFcompare (Prim2SF x) (Prim2SF y)) as [[]|]; congruence.
  - destruct (SFcompare (Prim2SF y) (Prim2SF z)) as [[]|]; congruence.
Qed.

End FloatOrder.

Section StdSort.

Context {A : Type} (comp : A -> A -> bool).

(** No element is followed, anywhere later, by one that must precede it. *)
Definition sortedBy (l : list A) : Prop :=
  StronglySorted (fun a b => comp b a = false) l.

Lemma insertBefore_Permutation x l : Permutation (insertBefore comp x l) (x :: l).
Proof.
  induction l as [|y l IH]; cbn [insertBefore]; [reflexivity|].
  destruct (comp x y); [reflexivity|].
  rewrite IH. apply perm_swap.
Qed.

Lemma std_sort_from_Permutation l acc :
  Permutation (fold_left (fun sorted x => insertBefore comp x sorted) l acc) (l ++ acc).
Proof.
  revert acc. induction l as [|x l IH]; intros acc; cbn [fold_left]; [reflexivity|].
  rewrite IH, insertBefore_Permutation. cbn [app].
  symmetry. apply Permutation_middle.
Qed.

Lemma std_sort_Permutation l : Permutation (std_sort comp l) l.
Proof.
  unfold std_sort. rewrite std_sort_from_Permutation. by rewrite app_nil_r.
Qed.

Hypothesis comp_irrefl : forall a, comp a a = false.
Hypothesis comp_trans : forall a b c, comp a b = true -> comp b c = true -> comp a c = true.

Lemma comp_asym a b : comp a b = true -> comp b a = false.
Proof using comp_irrefl comp_trans.
  intros Hab. destruct (comp b a) eqn:Hba; [|reflexivity].
  rewrite <- (comp_irrefl a). symmetry. by apply comp_trans with b.
Qed.

Lemma insertBefore_sortedBy x l : sortedBy l -> sortedBy (insertBefore comp x l).
Proof using comp_irrefl comp_trans.
  unfold sortedBy. induction 1 as [|y l Hl IH Hy]; cbn [insertBefore].
  - repeat constructor.
  - destruct (comp x y) eqn:Hxy.
    + constructor; [by constructor|].
      constructor; [by apply comp_asym|].
      eapply Forall_impl; [exact Hy|]. intros z Hzy. cbv beta in *.
      destruct (comp z x) eqn:Hzx; [|reflexivity].
      rewrite <- Hzy. symmetry. by apply comp_trans with x.
    + constructor; [exact IH|].
      rewrite (Forall_forall _ _). intros z Hz.
      rewrite (insertBefore_Permutation x l) in Hz.
      apply elem_of_cons in Hz as [->|Hz]; [exact Hxy|].
      by apply (proj1 (Forall_forall _ _) Hy).
Qed.

Lemma std_sort_from_sortedBy l acc :
  sortedBy acc -> sortedBy (fold_left (fun sorted x => insertBefore comp x sorted) l acc).
Proof using comp_irrefl comp_trans.
  revert acc. induction l as [|x l IH]; intros acc Hacc; cbn [fold_left]; [exact Hacc|].
  apply IH. by apply insertBefore_sortedBy.
Qed.

Lemma std_sort_sortedBy l : sortedBy (std_sort comp l).
Proof using comp_irrefl comp_trans.
  apply std_sort_from_sortedBy. constructor.
Qed.

Lemma sortedBy_lookup l i j a b :
  sortedBy l -> (i < j)%nat -> l !! i = Some a -> l !! j = Some b -> comp b a = false.
Proof.
  unfold sortedBy. intros Hl. revert i j.
  induction Hl as [|x l Hl IH Hx]; intros i j Hij Hi Hj; [by destruct i|].
  destruct j as [|j]; [lia|]. cbn in Hj.
  destruct i as [|i]; cbn in Hi.
  - injection Hi as ->.
    apply (proj1 (Forall_forall _ _) Hx). by eapply list_elem_of_lookup_2.
  - apply (IH i j); [lia|done..].
Qed.

End StdSort.

(** ** Subgraphs: sorting and depth queries *)

Section SubgraphFacts.

Context {Label : Type} `{LabelOps Label} `{Collaborators Label}.

(** The subgraphs [createSubgraphs] collects, before it sorts them. *)
Definition extractedSubgraphs (graph : PlanarGraph) : list BufferSubgraph :=
  snd (fold_left collectSubgraph (getNodes graph) (graph, [])).

Lemma createSubgraphs_sorts graph :
  snd (createSubgraphs graph []) = std_sort BufferSubgraphGT (extractedSubgraphs graph).
Proof.
  unfold createSubgraphs, extractedSubgraphs.
  by destruct (fold_left collectSubgraph (getNodes graph) (graph, [])).
Qed.

Lemma runTurns_app {S : Type} (turn : S -> nat -> Result S) ixs1 ixs2 st :
  runTurns turn (ixs1 ++ ixs2) st =
    let* st' := runTurns turn ixs1 st in runTurns turn ixs2 st'.
Proof.
  revert st. induction ixs1 as [|i ixs1 IH]; intros st; [reflexivity|].
  cbn [app runTurns]. destruct (turn st i); cbn [bind]; [apply IH|reflexivity..].
Qed.

Lemma pointees_seq (objs : list BufferSubgraph) i :
  (i <= length objs)%nat -> pointees objs (seq 0 i) = take i objs.
Proof.
  unfold pointees. induction i as [|i IH]; intros Hi; [by rewrite take_0|].
  rewrite seq_S, omap_app, IH by lia. cbn [omap list_omap Nat.add].
  destruct (lookup_lt_is_Some_2 objs i ltac:(lia)) as [x Hx].
  rewrite Hx. by rewrite (take_S_r _ _ _ Hx).
Qed.

(** What holds of the loop of [buildSubgraphs] before turn [i]. *)
Definition beforeTurn (subgraphList : list BufferSubgraph) (i : nat) (st : BuildState)
  : Prop :=
  processedGraphs st = seq 0 i /\
  length (subgraphs st) = length subgraphList /\
  drop i (subgraphs st) = drop i subgraphList.

Lemma buildSubgraph_beforeTurn subgraphList i st st' :
  beforeTurn subgraphList i st ->
  buildSubgraph st i = Ok st' ->
  beforeTurn subgraphList (S i) st'.
Proof.
  intros (Hp & Hlen & Hdrop). unfold buildSubgraph.
  destruct (subgraphs st !! i) as [sg|] eqn:Hsg; cbn [deref bind]; [|discriminate].
  unfold depthQuery.
  destruct (computeDepth _ sg) as [sg'| |]; cbn [bind]; [|discriminate..].
  destruct (addSubgraph _ (polyBuilder st)) as [pb| |]; cbn [bind]; [|discriminate..].
  intros [= <-]. unfold beforeTurn. cbn [processedGraphs subgraphs].
  split; [by rewrite Hp, seq_S|]. split; [by rewrite length_insert|].
  rewrite drop_insert_lt by lia.
  replace (S i) with (i + 1)%nat by lia. by rewrite <- !drop_drop, Hdrop.
Qed.

Lemma runTurns_beforeTurn subgraphList pb i st :
  runTurns buildSubgraph (seq 0 i) (mkBuildState subgraphList [] pb) = Ok st ->
  beforeTurn subgraphList i st.
Proof.
  revert st. induction i as [|i IH]; intros st.
  - intros [= <-]. by repeat split.
  - rewrite seq_S, runTurns_app. cbn [Nat.add].
    destruct (runTurns buildSubgraph (seq 0 i) _) as [st0| |]; cbn [bind runTurns];
      [|discriminate..].
    destruct (buildSubgraph st0 i) as [st1| |] eqn:Hturn; cbn [bind];
      [|discriminate..].
    intros [= <-]. eapply buildSubgraph_beforeTurn; [|exact Hturn]. by apply IH.
Qed.

(** Modelled from the spec: [BufferSubgraph::compareTo]
    (BufferSubgraph.cpp is outside the sources) orders subgraphs by their
    rightmost coordinate: -1, 1 or 0 as the x of the rightmost coordinate of
    the first is less than, greater than or neither against that of the
    second. *)
Definition compareRightmost (a b : BufferSubgraph) : Z :=
  if (cx (getRightmostCoordinate a) <? cx (getRightmostCoordinate b))%float then -1
  else if (cx (getRightmostCoordinate b) <? cx (getRightmostCoordinate a))%float then 1
  else 0.

Lemma BufferSubgraphGT_rightmost :
  (forall a b, compareTo a b = compareRightmost a b) ->
  forall a b,
    BufferSubgraphGT a b =
      (cx (getRightmostCoordinate b) <? cx (getRightmostCoordinate a))%float.
Proof.
  intros Hcmp a b. unfold BufferSubgraphGT. rewrite Hcmp. unfold compareRightmost.
  destruct (cx (getRightmostCoordinate a) <? cx (getRightmostCoordinate b))%float
    eqn:Hab.
  - cbn. symmetry. by apply (comp_asym _ float_ltb_irrefl float_ltb_trans).
  - by destruct (cx (getRightmostCoordinate b) <? cx (getRightmostCoordinate a))%float.
Qed.

(** Turn [i] of the loop, for a state the loop can be in before it: the
    depth is asked of [getDepth] over the first [i] subgraphs, at the
    rightmost coordinate of the subgraph of the turn. *)
Lemma buildSubgraph_turn subgraphList i st subgraph :
  beforeTurn subgraphList i st ->
  subgraphs st !! i = Some subgraph ->
  buildSubgraph st i =
    let outsideDepth :=
      getDepth (take i (subgraphs st)) (getRightmostCoordinate subgraph) in
    let* computed := computeDepth outsideDepth subgraph in
    let* pb := addSubgraph (findResultEdges computed) (polyBuilder st) in
    Ok (mkBuildState (<[i := findResultEdges computed]> (subgraphs st))
                     (seq 0 (S i)) pb).
Proof.
  intros (Hp & Hlen & Hdrop) Hsg. unfold buildSubgraph. rewrite Hsg.
  cbn [deref bind]. unfold depthQuery. rewrite Hp, pointees_seq
    by (apply lookup_lt_Some in Hsg; lia).
  cbv zeta. destruct (computeDepth _ subgraph) as [computed| |]; cbn [bind];
    [|reflexivity..].
  destruct (addSubgraph _ (polyBuilder st)); cbn [bind]; [|reflexivity..].
  by rewrite seq_S.
Qed.

Lemma beforeTurn_lookup subgraphList i st subgraph :
  beforeTurn subgraphList i st ->
  subgraphList !! i = Some subgraph -> subgraphs st !! i = Some subgraph.
Proof.
  intros (_ & _ & Hdrop) Hi.
  rewrite <- (Nat.add_0_r i), <- lookup_drop, Hdrop, lookup_drop, Nat.add_0_r.
  exact Hi.
Qed.

(** The subgraph at position [k] is the one of the list after its turn:
    its depth was computed from the depth [getDepth] gave over the [k]
    subgraphs before it, at its rightmost coordinate. *)
Definition processedAt (subgraphList : list BufferSubgraph) (st : BuildState)
    (k : nat) : Prop :=
  forall original, subgraphList !! k = Some original ->
    exists computed,
      computeDepth (getDepth (take k (subgraphs st))
                             (getRightmostCoordinate original)) original
        = Ok computed /\
      subgraphs st !! k = Some (findResultEdges computed).

Lemma runTurns_processedAt subgraphList pb i st :
  runTurns buildSubgraph (seq 0 i) (mkBuildState subgraphList [] pb) = Ok st ->
  forall k, (k < i)%nat -> processedAt subgraphList st k.
Proof.
  revert st. induction i as [|i IH]; intros st; [intros _ k Hk; lia|].
  rewrite seq_S, runTurns_app. cbn [Nat.add].
  destruct (runTurns buildSubgraph (seq 0 i) _) as [st0| |] eqn:Hrun;
    cbn [bind runTurns]; [|discriminate..].
  pose proof (runTurns_beforeTurn _ _ _ _ Hrun) as Hbefore.
  specialize (IH st0 eq_refl).
  destruct (subgraphs st0 !! i) as [subgraph|] eqn:Hsg.
  - rewrite (buildSubgraph_turn subgraphList i st0 subgraph Hbefore Hsg). cbv zeta.
    destruct (computeDepth _ subgraph) as [computed| |] eqn:Hdepth; cbn [bind];
      [|discriminate..].
    destruct (addSubgraph _ (polyBuilder st0)) as [pb'| |]; cbn [bind];
      [|discriminate..].
    intros [= <-] k Hk original Horig. cbn [subgraphs].
    rewrite take_insert_ge by lia.
    destruct (decide (k = i)) as [->|Hne].
    + rewrite (beforeTurn_lookup _ _ _ _ Hbefore Horig) in Hsg.
      injection Hsg as ->. exists computed. split; [exact Hdepth|].
      apply list_lookup_insert_eq. rewrite (proj1 (proj2 Hbefore)).
      by eapply lookup_lt_Some.
    + destruct (IH k ltac:(lia) original Horig) as (c & Hc & Hk').
      exists c. split; [exact Hc|]. by rewrite list_lookup_insert_ne.
  - unfold buildSubgraph. rewrite Hsg. cbn [deref bind]. discriminate.
Qed.

(** C7: [createSubgraphs] returns the extracted subgraphs sorted in
    descending order of their rightmost coordinate (with [compareTo]
    ordering subgraphs by it, no subgraph of the list has a rightmost
    coordinate left of the one of a later subgraph); [buffer] passes that
    sorted list to [buildSubgraphs]; and in the loop of [buildSubgraphs],
    over any list, in whatever order the sort left tied subgraphs: before
    turn [i] the processed graphs are exactly the subgraphs at positions
    [0 .. i-1], each as its own turn left it; the subgraph of turn [i] is
    the [i]-th of the list, still untouched; and turn [i] asks [getDepth]
    for the depth over exactly those [i] processed subgraphs, at the
    rightmost coordinate of its subgraph, before it appends the subgraph to
    the processed graphs. *)
Theorem subgraphs_sorted_and_queried_in_order (graph : PlanarGraph) :
  (forall a b, compareTo a b = compareRightmost a b) ->
  let sorted := snd (createSubgraphs graph []) in
  Permutation sorted (extractedSubgraphs graph) /\
  (forall i j a b, (i < j)%nat ->
     sorted !! i = Some a -> sorted !! j = Some b ->
     (cx (getRightmostCoordinate a) <? cx (getRightmostCoordinate b))%float = false) /\
  (forall g (bb : BufferBuilder Label) f,
     addEdges (edgeList bb) = Ok graph -> geomFact bb = Some f ->
     buildResult g bb =
       let* st := buildSubgraphs sorted (newPolygonBuilder f) in
       finishResult g bb f (getPolygons (polyBuilder st))) /\
  (forall (subgraphList : list BufferSubgraph) (pb : PolygonBuilder),
     buildSubgraphs subgraphList pb =
       runTurns buildSubgraph (seq 0 (length subgraphList))
                (mkBuildState subgraphList [] pb) /\
     forall i st subgraph,
       runTurns buildSubgraph (seq 0 i) (mkBuildState subgraphList [] pb) = Ok st ->
       subgraphList !! i = Some subgraph ->
       processedGraphs st = seq 0 i /\
       pointees (subgraphs st) (processedGraphs st) = take i (subgraphs st) /\
       (forall k, (k < i)%nat -> processedAt subgraphList st k) /\
       subgraphs st !! i = Some subgraph /\
       buildSubgraph st i =
         let outsideDepth :=
           getDepth (take i (subgraphs st)) (getRightmostCoordinate subgraph) in
         let* computed := computeDepth outsideDepth subgraph in
         let* pb' := addSubgraph (findResultEdges computed) (polyBuilder st) in
         Ok (mkBuildState (<[i := findResultEdges computed]> (subgraphs st))
                          (seq 0 (S i)) pb')).
Proof.
  intros Hcmp. cbv zeta.
  pose proof (BufferSubgraphGT_rightmost Hcmp) as Hgt.
  assert (Hbuffer : forall g (bb : BufferBuilder Label) f,
     addEdges (edgeList bb) = Ok graph -> geomFact bb = Some f ->
     buildResult g bb =
       let* st := buildSubgraphs (snd (createSubgraphs graph []))
                                 (newPolygonBuilder f) in
       finishResult g bb f (getPolygons (polyBuilder st))).
  { intros g bb f Hgraph Hfact. unfold buildResult. rewrite Hgraph, Hfact.
    cbn [bind deref]. by destruct (createSubgraphs graph []). }
  revert Hbuffer. rewrite createSubgraphs_sorts. intros Hbuffer.
  split; [apply std_sort_Permutation|].
  split; [|split; [exact Hbuffer|]].
  - intros i j a b Hij Hi Hj. rewrite <- Hgt.
    eapply sortedBy_lookup; [|exact Hij|exact Hi|exact Hj].
    apply std_sort_sortedBy.
    + intros x. rewrite Hgt. apply float_ltb_irrefl.
    + intros x y z. rewrite !Hgt. intros Hxy Hyz.
      by apply float_ltb_trans with (cx (getRightmostCoordinate y)).
  - intros subgraphList pb. split; [reflexivity|].
    intros i st subgraph Hrun Hi.
    pose proof (runTurns_beforeTurn _ _ _ _ Hrun) as Hbefore.
    pose proof (beforeTurn_lookup _ _ _ _ Hbefore Hi) as Hsg.
    destruct Hbefore as (Hp & Hlen & Hdrop).
    split; [exact Hp|]. split.
    { rewrite Hp. apply pointees_seq. apply lookup_lt_Some in Hsg. lia. }
    split; [by apply runTurns_processedAt with pb|].
    split; [exact Hsg|].
    by apply (buildSubgraph_turn subgraphList).
Qed.

End SubgraphFacts.

(** ** [buffer] *)

Section BufferFacts.

Context {Label : Type} `{LabelOps Label} `{Collaborators Label}.

Implicit Types (g : Geometry) (bb : BufferBuilder Label).

(** [buffer] with its first test written as in the source. *)
Lemma buffer_unfold g distance bb :
  buffer g distance bb =
    if isSingleSided (bufParams bb) && (1 <? getNumGeometries g)%nat then
      (let* geoms_to_delete :=
         mapM (fun subgeom =>
                 fst (buffer subgeom distance (newBufferBuilder (bufParams bb))))
              (components g) in
       unaryUnion geoms_to_delete, bb)
    else bufferWhole g distance bb.
Proof.
  destruct g; cbn [buffer getNumGeometries components]; try reflexivity.
  all: destruct (isSingleSided (bufParams bb)); reflexivity.
Qed.


(** C3, amended: when the curve set builder produces no curves for the
    geometry this builder buffers as a whole, [buffer] returns the empty
    polygon of the input's factory, whether the input is areal or linear. *)
Theorem buffer_no_curves_empty_polygon g distance bb :
  isSingleSided (bufParams bb) && (1 <? getNumGeometries g)%nat = false ->
  getCurves g distance (selectPrecisionModel bb g) (bufParams bb)
            (isInvertOrientation bb) = [] ->
  fst (buffer g distance bb) = Ok (createPolygon (getFactory g)) /\
  isPolygon (createPolygon (getFactory g)) = true /\
  isEmpty (createPolygon (getFactory g)) = true.
Proof.
  intros Hwhole Hcurves. rewrite buffer_unfold, Hwhole.
  unfold bufferWhole. cbn [bufParams isInvertOrientation set_geomFact].
  rewrite Hcurves. cbn. done.
Qed.

(** The search for the biggest polygon, started from any iterator and
    the area it stands for. *)
Lemma largerPolygon_fold polys best maxArea :
  (forall b, best = Some b -> maxArea = getArea b) ->
  match fst (fold_left largerPolygon polys (best, maxArea)) with
  | None =>
      best = None /\ forall q, q ∈ polys -> (maxArea <? getArea q)%float = false
  | Some p =>
      (Some p = best \/ (p ∈ polys /\ (maxArea <? getArea p)%float = true)) /\
      forall q, q ∈ polys -> (getArea p <? getArea q)%float = false
  end.
Proof.
  revert best maxArea. induction polys as [|poly polys IH]; intros best maxArea Hbest.
  - cbn [fold_left fst]. destruct best as [p|].
    + split; [by left|]. intros q Hq. inversion Hq.
    + split; [reflexivity|]. intros q Hq. inversion Hq.
  - cbn [fold_left]. unfold largerPolygon at 2.
    destruct (maxArea <? getArea poly)%float eqn:Hlt.
    + specialize (IH (Some poly) (getArea poly)).
      destruct (fst (fold_left largerPolygon polys (Some poly, getArea poly)))
        as [p|].
      * destruct IH as [Hp Hmax]; [by intros b [= ->]|].
        assert (Hpoly : p = poly \/ (getArea poly <? getArea p)%float = true).
        { destruct Hp as [[= ->]|[_ Hp]]; [by left|by right]. }
        split.
        -- right. destruct Hp as [[= ->]|[Hin Hp]].
           ++ split; [by left|exact Hlt].
           ++ split; [by right|]. by apply float_ltb_trans with (getArea poly).
        -- intros q Hq. apply elem_of_cons in Hq as [->|Hq]; [|by apply Hmax].
           destruct Hpoly as [->|Hpoly]; [apply float_ltb_irrefl|].
           by apply (comp_asym _ float_ltb_irrefl float_ltb_trans).
      * destruct IH as [[=] _]. by intros b [= ->].
    + specialize (IH best maxArea Hbest).
      destruct (fst (fold_left largerPolygon polys (best, maxArea))) as [p|].
      * destruct IH as [Hp Hmax]. split.
        -- destruct Hp as [Hp|[Hin Hp]]; [by left|]. right. split; [by right|exact Hp].
        -- intros q Hq. apply elem_of_cons in Hq as [->|Hq]; [|by apply Hmax].
           destruct Hp as [Hp|[_ Hp]].
           ++ by rewrite <- (Hbest p).
           ++ destruct (getArea p <? getArea poly)%float eqn:Hpq; [|reflexivity].
              by rewrite (float_ltb_trans _ _ _ Hp Hpq) in Hlt.
      * destruct IH as [-> Hall]. split; [reflexivity|].
        intros q Hq. apply elem_of_cons in Hq as [->|Hq]; [exact Hlt|by apply Hall].
Qed.

Lemma biggestPolygon_spec polys :
  match biggestPolygon polys with
  | None => forall q, q ∈ polys -> (0 <? getArea q)%float = false
  | Some p =>
      p ∈ polys /\ (0 <? getArea p)%float = true /\
      forall q, q ∈ polys -> (getArea p <? getArea q)%float = false
  end.
Proof.
  unfold biggestPolygon.
  pose proof (largerPolygon_fold polys None 0%float) as Hfold.
  destruct (fst (fold_left largerPolygon polys (None, 0%float))) as [p|].
  - destruct Hfold as [[[=]|[Hin Hp]] Hmax]; [discriminate|]. done.
  - by destruct Hfold as [_ Hall]; [discriminate|].
Qed.

(** C9, amended: in the clean-up of the single-sided branch, once the
    input linework and the boundary of the buffer result are united and
    polygonized: with more than one polygon of which at least one has an
    area above 0, the result is one of the polygons, of positive area, and
    no polygon has a larger area; with more than one polygon and none of
    positive area, and with zero or one polygon, the buffer result is
    returned unchanged. *)
Theorem cleanupSingleSided_keeps_largest g resultGeom nodedLinework :
  overlayUnion (if (getDimension g >? 1)%Z then getBoundary g else g)
               (getBoundary resultGeom) = Ok nodedLinework ->
  let polys := polygonize nodedLinework in
  (forall bb f resultPolyList,
     isSingleSided (bufParams bb) = true -> resultPolyList <> [] ->
     resultGeom = buildGeometry f resultPolyList ->
     finishResult g bb f resultPolyList = cleanupSingleSided g resultGeom) /\
  ((1 < length polys)%nat ->
   (exists q, q ∈ polys /\ (0 <? getArea q)%float = true) ->
   exists p, cleanupSingleSided g resultGeom = Ok p /\
             p ∈ polys /\ (0 <? getArea p)%float = true /\
             forall q, q ∈ polys -> (getArea p <? getArea q)%float = false) /\
  ((1 < length polys)%nat ->
   (forall q, q ∈ polys -> (0 <? getArea q)%float = false) ->
   cleanupSingleSided g resultGeom = Ok resultGeom) /\
  ((length polys <= 1)%nat ->
   cleanupSingleSided g resultGeom = Ok resultGeom).
Proof.
  intros Hunion. cbv zeta. unfold cleanupSingleSided. rewrite Hunion. cbn [bind].
  pose proof (biggestPolygon_spec (polygonize nodedLinework)) as Hbig.
  split; [|split; [|split]].
  - intros bb f resultPolyList Hss Hne ->. unfold finishResult, cleanupSingleSided.
    rewrite Hss, Hunion. by destruct resultPolyList.
  - intros Hn (q & Hq & Hpos). apply Nat.ltb_lt in Hn. rewrite Hn.
    destruct (biggestPolygon (polygonize nodedLinework)) as [p|].
    + exists p. by split.
    + by rewrite (Hbig q Hq) in Hpos.
  - intros Hn Hnone. apply Nat.ltb_lt in Hn. rewrite Hn.
    destruct (biggestPolygon (polygonize nodedLinework)) as [p|]; [|reflexivity].
    destruct Hbig as (Hp & Hpos & _). by rewrite (Hnone p Hp) in Hpos.
  - intros Hn. apply Nat.ltb_ge in Hn. by rewrite Hn.
Qed.

End BufferFacts.

(** ** [bufferLineSingleSided] *)

Section SingleSidedFacts.

Context {Label : Type} `{LabelOps Label}.

Implicit Types (g : Geometry) (bb : BufferBuilder Label).

(** The geometries the cast to [LineString] accepts: line strings and, by
    inheritance, linear rings. *)
Definition isaLineString g : Prop :=
  match g with LineString _ _ | LinearRing _ _ => True | _ => False end.

Lemma asLineString_None g : asLineString g = None <-> ~ isaLineString g.
Proof. destruct g; cbn; split; (done || tauto). Qed.

(** C5: [bufferLineSingleSided] throws an [IllegalArgumentException] for
    every geometry that is not a line string, and returns a clone of the
    input, equal to it, for every line string when the distance is 0; in
    both cases the builder is left as it was and the outcome does not depend
    on the classes of the pipeline, which are not called. *)
Theorem bufferLineSingleSided_rejects_and_clones
    (C C' : Collaborators Label) g distance leftSide bb :
  (~ isaLineString g ->
   exists msg,
     @bufferLineSingleSided Label _ C g distance leftSide bb =
       (Throw (IllegalArgumentException msg), bb)) /\
  (isaLineString g -> (distance =? 0)%float = true ->
   @bufferLineSingleSided Label _ C g distance leftSide bb = (Ok (clone g), bb) /\
   clone g = g) /\
  (~ isaLineString g \/ (distance =? 0)%float = true ->
   @bufferLineSingleSided Label _ C g distance leftSide bb =
   @bufferLineSingleSided Label _ C' g distance leftSide bb).
Proof.
  unfold bufferLineSingleSided. split; [|split].
  - intros Hg. apply asLineString_None in Hg as ->. eauto.
  - intros Hg ->. destruct (asLineString g) eqn:Hl; [done|].
    by apply asLineString_None in Hl.
  - intros [Hg | ->]; [by apply asLineString_None in Hg as ->|].
    by destruct (asLineString g).
Qed.

Context `{Collaborators Label}.

Lemma trimMergedLines_lineStrings f startPoint endPoint distance lineLength mergedLines :
  Forall (fun t => isLineString t = true)
         (trimMergedLines f startPoint endPoint distance lineLength mergedLines).
Proof.
  unfold trimMergedLines. induction (rev mergedLines) as [|coords ls IH];
    cbn [omap list_omap]; [constructor|].
  destruct (trimEndPoints startPoint endPoint distance lineLength coords);
    cbn [fmap option_fmap option_map]; [constructor; [reflexivity|exact IH]|exact IH].
Qed.

(** C8: once the merged lines of the intersection are trimmed,
    [bufferLineSingleSided] returns the one trimmed line string when exactly
    one remains, the multi-line string of all of them when more than one
    remains, and the empty line string when none remains, as when the
    intersection has no line to merge. *)
Theorem bufferLineSingleSided_result_by_count g l distance leftSide bb buf mergedLines :
  asLineString g = Some l ->
  (distance =? 0)%float = false ->
  let pm := selectPrecisionModel bb g in
  let f := getFactory g in
  let modParams := setSingleSided false (setEndCapStyle CAP_FLAT (bufParams bb)) in
  fst (buffer g distance (newBufferBuilder modParams)) = Ok buf ->
  intersectMergedLines f (fst (getNoder pm bb))
    ((fun seq => mkSegmentString seq tt)
       <$> getSingleSidedLineCurve pm modParams l distance leftSide (negb leftSide))
    (getBoundary buf) = Ok mergedLines ->
  let trimmed :=
    trimMergedLines f (getAt l 0) (getAt l (size_sub (size l) 1)) distance
                    (getLength g) mergedLines in
  let result := fst (bufferLineSingleSided g distance leftSide bb) in
  Forall (fun t => isLineString t = true) trimmed /\
  (forall single, trimmed = [single] -> result = Ok single) /\
  ((1 < length trimmed)%nat -> result = Ok (createMultiLineString f trimmed)) /\
  (trimmed = [] -> result = Ok (createEmptyLineString f)) /\
  (mergedLines = [] -> result = Ok (createEmptyLineString f)).
Proof.
  intros Hl Hd pm f modParams Hbuf Hmerged trimmed result.
  assert (Hres : result = Ok (lineResult f trimmed)).
  { subst result. unfold bufferLineSingleSided. rewrite Hl, Hd.
    change (bufParams (set_geomFact (getFactory g) bb)) with (bufParams bb).
    fold pm. fold modParams. rewrite Hbuf.
    unfold getNoder in *. cbn [workingNoder set_geomFact] in *.
    destruct (workingNoder bb) as [noder|]; cbn [fst snd] in *;
      unfold singleSidedLine; cbn [geomFact set_geomFact set_li deref bind];
      fold f; rewrite Hmerged; reflexivity. }
  split; [apply trimMergedLines_lineStrings|]. rewrite Hres. unfold lineResult.
  split; [|split; [|split]].
  - by intros single ->.
  - intros Hn. apply Nat.ltb_lt in Hn. by rewrite Hn.
  - by intros ->.
  - intros Hm. subst trimmed. by rewrite Hm.
Qed.

End SingleSidedFacts.

(** ** End point trimming *)

Section TrimFacts.

(** The two tests of a trimming loop: the end point is nearer to the
    reference point than the allowance, and the segment next to it is not
    longer than its allowance. *)
Definition nearer (refPoint : Coordinate) (ptDistAllowance : float) (p : Coordinate)
  : bool :=
  (distance p refPoint <? ptDistAllowance)%float.

Definition notLonger (segLengthAllowance : float) (p q : Coordinate) : bool :=
  negb (segLengthAllowance <? distance p q)%float.

(** One pass over the front of a chain against one reference point: the
    first point is removed while more than one point remains and both tests
    hold of it; the pass ends at the first point that fails one. *)
Fixpoint stripFront (refPoint : Coordinate) (ptDistAllowance segLengthAllowance : float)
    (coords : list Coordinate) : list Coordinate :=
  match coords with
  | p :: (q :: _) as rest =>
      if nearer refPoint ptDistAllowance p && notLonger segLengthAllowance p q
      then stripFront refPoint ptDistAllowance segLengthAllowance rest
      else coords
  | _ => coords
  end.

(** The same pass over the back of a chain. *)
Definition stripBack (refPoint : Coordinate) (ptDistAllowance segLengthAllowance : float)
    (coords : list Coordinate) : list Coordinate :=
  rev (stripFront refPoint ptDistAllowance segLengthAllowance (rev coords)).

(** The four passes in the order of the source: the front against the
    start point, the front against the end point, the back against the
    start point, the back against the end point. *)
Definition trimmedChain (startPoint endPoint : Coordinate)
    (distance lineLength : float) (coords : list Coordinate) : list Coordinate :=
  let a := ptDistAllowanceOf distance lineLength in
  let s := segLengthAllowanceOf distance in
  stripBack endPoint a s
    (stripBack startPoint a s
       (stripFront endPoint a s (stripFront startPoint a s coords))).

Lemma getAt_lookup coords (i : nat) c :
  coords !! i = Some c -> getAt coords (Z.of_nat i) = c.
Proof.
  revert i. induction coords as [|c0 coords IH]; intros i; [by destruct i|].
  destruct i as [|i]; cbn [getAt].
  - by intros [= ->].
  - intros Hi. rewrite (proj2 (Z.eqb_neq (Z.of_nat (S i)) 0)) by lia.
    replace (Z.of_nat (S i) - 1)%Z with (Z.of_nat i) by lia. by apply IH.
Qed.

Lemma size_add_nat (a : nat) (b : Z) :
  (0 <= Z.of_nat a + b <= size_max)%Z -> size_add (Z.of_nat a) b = (Z.of_nat a + b)%Z.
Proof. apply wrap_size_id. Qed.

Lemma size_sub_nat (a : nat) (b : Z) :
  (0 <= Z.of_nat a - b <= size_max)%Z -> size_sub (Z.of_nat a) b = (Z.of_nat a - b)%Z.
Proof. apply wrap_size_id. Qed.

Lemma stripFront_cons refPoint a s p q coords :
  stripFront refPoint a s (p :: q :: coords) =
    if nearer refPoint a p && notLonger s p q
    then stripFront refPoint a s (q :: coords)
    else p :: q :: coords.
Proof. reflexivity. Qed.

Lemma stripFront_short refPoint a s coords :
  (length coords <= 1)%nat -> stripFront refPoint a s coords = coords.
Proof. destruct coords as [|p [|q coords]]; cbn; [done..|lia]. Qed.

Lemma stripFront_length refPoint a s coords :
  (length (stripFront refPoint a s coords) <= length coords)%nat /\
  (1 <= length coords -> 1 <= length (stripFront refPoint a s coords))%nat.
Proof.
  induction coords as [|p coords IH]; [cbn; lia|].
  destruct coords as [|q coords]; [cbn; lia|].
  rewrite stripFront_cons.
  destruct (nearer _ _ _ && notLonger _ _ _); cbn [length] in *; lia.
Qed.

(** The points [f .. f+n-1] of a chain. *)
Local Abbreviation window f n coords := (take n (drop f coords)).

Implicit Types coords : list Coordinate.

Lemma window_two coords f n :
  (2 <= n)%nat -> (f + n <= length coords)%nat ->
  exists p q,
    coords !! f = Some p /\ coords !! (S f) = Some q /\
    window f n coords = p :: q :: window (S (S f)) (n - 2) coords /\
    window (S f) (n - 1) coords = q :: window (S (S f)) (n - 2) coords.
Proof.
  intros Hn Hlen.
  destruct (lookup_lt_is_Some_2 coords f ltac:(lia)) as [p Hp].
  destruct (lookup_lt_is_Some_2 coords (S f) ltac:(lia)) as [q Hq].
  exists p, q. split; [exact Hp|]. split; [exact Hq|].
  rewrite (drop_S _ _ _ Hp), (drop_S _ _ _ Hq).
  destruct n as [|[|n]]; [lia..|].
  cbn [take Nat.sub]. by rewrite Nat.sub_0_r.
Qed.

Lemma trimFront_window coords refPoint a s fuel f n :
  (n <= fuel)%nat -> (f + n <= length coords)%nat -> (size coords <= size_max)%Z ->
  exists f' n',
    trimFront fuel coords refPoint a s (Z.of_nat f) (Z.of_nat n) =
      (Z.of_nat f', Z.of_nat n') /\
    (f' + n' = f + n)%nat /\
    window f' n' coords = stripFront refPoint a s (window f n coords).
Proof.
  unfold size. revert f n. induction fuel as [|fuel IH]; intros f n Hfuel Hlen Hmax.
  - exists f, n. assert (n = 0)%nat as -> by lia. by rewrite take_0.
  - cbn [trimFront]. destruct (1 <? Z.of_nat n)%Z eqn:Hn.
    + apply Z.ltb_lt in Hn.
      destruct (window_two coords f n ltac:(lia) Hlen) as (p & q & Hp & Hq & Hw & Hw').
      rewrite size_add_nat by lia.
      replace (Z.of_nat f + 1)%Z with (Z.of_nat (S f)) by lia.
      rewrite (getAt_lookup _ _ _ Hp), (getAt_lookup _ _ _ Hq).
      rewrite Hw, stripFront_cons. unfold nearer, notLonger.
      destruct (distance p refPoint <? a)%float; cbn [andb];
        [|exists f, n; by rewrite Hw].
      destruct (s <? distance p q)%float; cbn [negb];
        [exists f, n; by rewrite Hw|].
      rewrite size_sub_nat by lia.
      replace (Z.of_nat n - 1)%Z with (Z.of_nat (n - 1)) by lia.
      destruct (IH (S f) (n - 1)%nat ltac:(lia) ltac:(lia) Hmax) as (f' & n' & -> & Hsum & Hwin).
      exists f', n'. split; [reflexivity|]. split; [lia|].
      by rewrite Hwin, Hw'.
    + apply Z.ltb_ge in Hn. exists f, n. split; [reflexivity|]. split; [reflexivity|].
      symmetry. apply stripFront_short. rewrite length_take. lia.
Qed.

Lemma window_last_two coords f n :
  (2 <= n)%nat -> (f + n <= length coords)%nat ->
  exists p q,
    coords !! (f + n - 1)%nat = Some p /\ coords !! (f + n - 2)%nat = Some q /\
    rev (window f n coords) = p :: q :: rev (window f (n - 2) coords) /\
    rev (window f (n - 1) coords) = q :: rev (window f (n - 2) coords).
Proof.
  intros Hn Hlen.
  destruct (lookup_lt_is_Some_2 coords (f + n - 1) ltac:(lia)) as [p Hp].
  destruct (lookup_lt_is_Some_2 coords (f + n - 2) ltac:(lia)) as [q Hq].
  exists p, q. split; [exact Hp|]. split; [exact Hq|].
  destruct n as [|[|n]]; [lia..|]. cbn [Nat.sub]. rewrite Nat.sub_0_r.
  assert (Hq' : drop f coords !! n = Some q).
  { rewrite lookup_drop. rewrite <- Hq. f_equal. lia. }
  assert (Hp' : drop f coords !! S n = Some p).
  { rewrite lookup_drop. rewrite <- Hp. f_equal. lia. }
  rewrite (take_S_r _ _ _ Hp'), (take_S_r _ _ _ Hq'), !rev_app_distr. done.
Qed.

Lemma trimBack_window coords refPoint a s fuel f n back :
  (n <= fuel)%nat -> (f + n <= length coords)%nat -> (size coords <= size_max)%Z ->
  (1 <= n -> back = Z.of_nat (f + n - 1))%nat ->
  exists back' n',
    trimBack fuel coords refPoint a s back (Z.of_nat n) = (back', Z.of_nat n') /\
    (1 <= n' -> back' = Z.of_nat (f + n' - 1))%nat /\
    (n' <= n)%nat /\
    window f n' coords = stripBack refPoint a s (window f n coords).
Proof.
  unfold size, stripBack. revert n back.
  induction fuel as [|fuel IH]; intros n back Hfuel Hlen Hmax Hback.
  - exists back, n. assert (n = 0)%nat as -> by lia. by rewrite take_0.
  - cbn [trimBack]. destruct (1 <? Z.of_nat n)%Z eqn:Hn.
    + apply Z.ltb_lt in Hn. rewrite (Hback ltac:(lia)).
      destruct (window_last_two coords f n ltac:(lia) Hlen)
        as (p & q & Hp & Hq & Hw & Hw').
      rewrite size_sub_nat by lia.
      replace (Z.of_nat (f + n - 1) - 1)%Z with (Z.of_nat (f + n - 2)) by lia.
      rewrite (getAt_lookup _ _ _ Hp), (getAt_lookup _ _ _ Hq).
      rewrite Hw, stripFront_cons. unfold nearer, notLonger.
      destruct (distance p refPoint <? a)%float; cbn [andb];
        [|exists (Z.of_nat (f + n - 1)), n; by rewrite <- Hw, rev_involutive].
      destruct (s <? distance p q)%float; cbn [negb];
        [exists (Z.of_nat (f + n - 1)), n; by rewrite <- Hw, rev_involutive|].
      rewrite size_sub_nat by lia.
      replace (Z.of_nat n - 1)%Z with (Z.of_nat (n - 1)) by lia.
      destruct (IH (n - 1)%nat (Z.of_nat (f + n - 2)) ltac:(lia) ltac:(lia) Hmax)
        as (back' & n' & -> & Hb & Hle & Hwin).
      { intros _. f_equal. lia. }
      exists back', n'. split; [reflexivity|]. split; [exact Hb|]. split; [lia|].
      by rewrite Hwin, Hw'.
    + apply Z.ltb_ge in Hn. exists back, n. split; [reflexivity|].
      split; [exact Hback|]. split; [reflexivity|].
      rewrite stripFront_short, rev_involutive; [reflexivity|].
      rewrite length_rev, length_take. lia.
Qed.

Lemma copy_window coords f n k :
  (f + k + n <= length coords)%nat -> (size coords <= size_max)%Z ->
  (fun i => getAt coords (size_add i (Z.of_nat f))) <$> seqZ (Z.of_nat k) (Z.of_nat n) =
  window (f + k) n coords.
Proof.
  unfold size. revert k. induction n as [|n IH]; intros k Hlen Hmax.
  - by rewrite take_0.
  - rewrite seqZ_cons by lia. cbn [fmap list_fmap].
    destruct (lookup_lt_is_Some_2 coords (f + k) ltac:(lia)) as [c Hc].
    rewrite (drop_S _ _ _ Hc). cbn [take]. f_equal.
    + unfold size_add. rewrite wrap_size_id by lia.
      replace (Z.of_nat k + Z.of_nat f)%Z with (Z.of_nat (f + k)) by lia.
      by apply getAt_lookup.
    + replace (Z.succ (Z.of_nat k)) with (Z.of_nat (S k)) by lia.
      replace (Z.pred (Z.of_nat (S n))) with (Z.of_nat n) by lia.
      change (list_fmap Z Coordinate ?g ?l) with (g <$> l).
      rewrite IH by lia. by replace (f + S k)%nat with (S (f + k)) by lia.
Qed.

(** The index loops of [trimEndPoints] are the four passes. *)
Lemma trimEndPoints_trimmedChain startPoint endPoint distance lineLength coords :
  (size coords <= size_max)%Z ->
  let trimmed := trimmedChain startPoint endPoint distance lineLength coords in
  trimEndPoints startPoint endPoint distance lineLength coords =
    if (1 <? length trimmed)%nat then Some trimmed else None.
Proof.
  intros Hmax. cbv zeta. unfold trimmedChain.
  set (a := ptDistAllowanceOf distance lineLength).
  set (s := segLengthAllowanceOf distance).
  unfold trimEndPoints. fold a. fold s. cbv zeta.
  set (N := length coords).
  assert (Hsz : size_add (size_sub (size_sub (size coords) 1) 0) 1 = Z.of_nat N).
  { unfold size, size_add, size_sub, wrap_size, size_max in *. fold N in Hmax |- *.
    destruct (decide (N = 0)%nat) as [->|HN]; [reflexivity|].
    rewrite (Z.mod_small (Z.of_nat N - 1)) by lia.
    rewrite Z.sub_0_r, (Z.mod_small (Z.of_nat N - 1)) by lia.
    rewrite Z.mod_small; lia. }
  rewrite Hsz.
  destruct (trimFront_window coords startPoint a s N 0 N ltac:(lia) ltac:(lia) Hmax)
    as (f1 & n1 & Hr1 & Hs1 & Hw1).
  change (Z.of_nat 0) with 0%Z in Hr1. rewrite Hr1.
  destruct (trimFront_window coords endPoint a s N f1 n1 ltac:(lia) ltac:(lia) Hmax)
    as (f2 & n2 & -> & Hs2 & Hw2).
  destruct (trimBack_window coords startPoint a s N f2 n2
              (size_sub (size coords) 1) ltac:(lia) ltac:(lia) Hmax)
    as (b3 & n3 & -> & Hb3 & Hn3 & Hw3).
  { intros Hn2. unfold size. fold N. rewrite size_sub_nat;
      unfold size, size_max in *; fold N in Hmax; lia. }
  destruct (trimBack_window coords endPoint a s N f2 n3 b3
              ltac:(lia) ltac:(lia) Hmax Hb3)
    as (b4 & n4 & -> & Hb4 & Hn4 & Hw4).
  rewrite drop_0, (take_ge coords N) in Hw1 by (unfold N; lia).
  rewrite Hw1 in Hw2. rewrite Hw2 in Hw3. rewrite Hw3 in Hw4.
  rewrite <- Hw4. rewrite length_take, length_drop. fold N.
  replace (n4 `min` (N - f2))%nat with n4 by lia.
  destruct (1 <? Z.of_nat n4)%Z eqn:H4.
  - apply Z.ltb_lt in H4. rewrite (proj2 (Nat.ltb_lt 1 n4)) by lia.
    unfold size. fold N. destruct (Z.of_nat n4 <? Z.of_nat N)%Z eqn:HN.
    + pose proof (copy_window coords f2 n4 0 ltac:(lia) Hmax) as Hcopy.
      change (Z.of_nat 0) with 0%Z in Hcopy. rewrite Hcopy. by rewrite Nat.add_0_r.
    + apply Z.ltb_ge in HN. assert (f2 = 0 /\ n4 = N)%nat as [-> ->] by lia.
      by rewrite drop_0, take_ge by (unfold N; lia).
  - apply Z.ltb_ge in H4. by rewrite (proj2 (Nat.ltb_ge 1 n4)) by lia.
Qed.

(** C4, amended: the clean-up shrinks every merged line from the front and
    then from the back, each time in two passes, the first against the
    start point of the input line and the second against its end point.  A
    pass removes the end vertex while more than one point remains, the
    vertex is nearer to the reference point of the pass than
    [max(d - 0.1 * length, 0.98 * d)] and the segment next to it is not
    longer than [1.02 * d], with [d] the signed distance, and stops at the
    first vertex that fails a test.  A line is kept when more than one
    point of it is left. *)
Theorem trimEndPoints_four_passes
    f startPoint endPoint distance lineLength (mergedLines : list (list Coordinate)) :
  Forall (fun coords => (size coords <= size_max)%Z) mergedLines ->
  let a := ptDistAllowanceOf distance lineLength in
  let s := segLengthAllowanceOf distance in
  let passes coords :=
    stripBack endPoint a s
      (stripBack startPoint a s
         (stripFront endPoint a s (stripFront startPoint a s coords))) in
  (forall coords, coords ∈ mergedLines ->
     trimEndPoints startPoint endPoint distance lineLength coords =
       if (1 <? length (passes coords))%nat then Some (passes coords) else None) /\
  trimMergedLines f startPoint endPoint distance lineLength mergedLines =
    omap (fun coords =>
            if (1 <? length (passes coords))%nat
            then Some (createLineString f (passes coords)) else None)
         (rev mergedLines).
Proof.
  intros Hsizes. cbv zeta. split.
  - intros coords Hin.
    apply (trimEndPoints_trimmedChain startPoint endPoint distance lineLength coords).
    by apply (proj1 (Forall_forall _ _) Hsizes).
  - unfold trimMergedLines. apply Forall_rev in Hsizes.
    induction Hsizes as [|coords ls Hsize _ IH]; [reflexivity|].
    cbn [omap list_omap].
    rewrite (trimEndPoints_trimmedChain startPoint endPoint distance lineLength
               coords Hsize), IH.
    unfold trimmedChain. by destruct (1 <? length _)%nat.
Qed.

End TrimFacts.

(** ** A small world to run the builder in *)

(** Stand-ins for the classes around the builder, simple enough to compute
    with: curves are the linework of the input, nothing crosses, every edge
    is a subgraph of its own, a boundary is the list of rings, the overlay
    union collects linework, the polygonizer closes rings, the one-sided
    offset of a chain is the chain moved along the y axis. *)
Module Samples.

Import TopoLabel.
Local Open Scope float_scope.

Definition fact0 : GeometryFactory := mkFactory FLOATING 0%Z.

Fixpoint shoelaceSum (ring : list Coordinate) : float :=
  match ring with
  | p :: (q :: _) as rest => (cx p * cy q - cx q * cy p) + shoelaceSum rest
  | _ => 0
  end.

Definition ringArea (ring : list Coordinate) : float := abs (shoelaceSum ring / 2).

Fixpoint chainLength (pts : list Coordinate) : float :=
  match pts with
  | p :: (q :: _) as rest => distance p q + chainLength rest
  | _ => 0
  end.

Definition isClosed (pts : list Coordinate) : bool :=
  match pts, last pts with
  | first :: _, Some final => equals2D first final && (3 <? length pts)%nat
  | _, _ => false
  end.

Definition toPolygon (g : Geometry) : option Geometry :=
  match g with
  | LineString f pts | LinearRing f pts =>
      if isClosed pts then Some (Polygon f pts []) else None
  | _ => None
  end.

Definition rightmostOf (pts : list Coordinate) : Coordinate :=
  foldr (fun p best => if cx best <? cx p then p else best) (xy neg_infinity 0) pts.

Record Subgraph : Type := mkSubgraph { sg_rightmost : Coordinate; sg_depth : option Z }.

Definition sampleCurves (g : Geometry) (d : float) : list (SegmentString Label) :=
  match g with
  | LineString _ pts | LinearRing _ pts =>
      if 0 <? d then [mkSegmentString pts (curveLabel BOUNDARY EXTERIOR INTERIOR)]
      else []
  | Polygon _ (p :: shell) _ =>
      [mkSegmentString (p :: shell) (curveLabel BOUNDARY EXTERIOR INTERIOR)]
  | _ => []
  end.

Definition sampleBoundary (g : Geometry) : Geometry :=
  match g with
  | Polygon f shell [] => LinearRing f shell
  | Polygon f shell holes =>
      Collection f MULTILINESTRING (LinearRing f shell :: (LinearRing f <$> holes))
  | LineString f pts => Collection f MULTIPOINT ((fun p => Point f [p]) <$> pts)
  | _ => Collection (getFactory g) GEOMETRYCOLLECTION []
  end.

Definition sampleDimension (g : Geometry) : Z :=
  match g with
  | Point _ _ => 0
  | LineString _ _ | LinearRing _ _ => 1
  | Polygon _ _ _ => 2
  | Collection _ MULTIPOINT _ => 0
  | Collection _ MULTILINESTRING _ => 1
  | Collection _ _ _ => 2
  end.

Definition sampleCompareTo (a b : Subgraph) : Z :=
  if cx (sg_rightmost a) <? cx (sg_rightmost b) then (-1)%Z
  else if cx (sg_rightmost b) <? cx (sg_rightmost a) then 1%Z
  else 0%Z.

Definition moveAlongY (dy : float) (p : Coordinate) : Coordinate :=
  mkCoordinate (cx p) (cy p + dy) (cz p).

Global Instance world : Collaborators Label := {|
  getCurves g d _ _ _ := sampleCurves g d;
  MCIndexNoder _ := fun D segs => Ok segs;
  PlanarGraph := list (Coordinate * bool);
  Node := nat;
  addEdges edges := Ok ((fun e => (rightmostOf (getCoordinates e), false)) <$> edges);
  getNodes graph := seq 0 (length graph);
  isVisited graph n := match graph !! n with Some (_, v) => v | None => true end;
  BufferSubgraph := Subgraph;
  create n graph :=
    (mkSubgraph (default (xy 0 0) (fst <$> graph !! n)) None,
     alter (fun node => (fst node, true)) n graph);
  compareTo := sampleCompareTo;
  getRightmostCoordinate := sg_rightmost;
  computeDepth d sg := Ok (mkSubgraph (sg_rightmost sg) (Some d));
  findResultEdges sg := sg;
  getDepth processed _ := Z.of_nat (length processed);
  PolygonBuilder := list Geometry;
  newPolygonBuilder _ := [];
  addSubgraph _ pb := Ok pb;
  getPolygons pb := pb;
  buildGeometry f gs := match gs with [g] => g | _ => Collection f MULTIPOLYGON gs end;
  getDimension := sampleDimension;
  getBoundary := sampleBoundary;
  getArea g := match g with Polygon _ shell _ => ringArea shell | _ => 0 end;
  getLength g := match asLineString g with Some pts => chainLength pts | None => 0 end;
  overlayUnion a b :=
    Ok (Collection (getFactory a) MULTILINESTRING (components a ++ components b));
  polygonize g := omap toPolygon (components g);
  unaryUnion gs := Ok (Collection fact0 GEOMETRYCOLLECTION gs);
  snapIntersection a _ := Ok a;
  getMergedLineStrings g := omap asLineString (components g);
  getSingleSidedLineCurve _ _ coords d leftSide _ :=
    [moveAlongY (if leftSide then d else - d) <$> coords]
|}.

#[warnings="-inexact-float"]
Definition roundParams (singleSided : bool) : BufferParameters :=
  mkBufferParameters CAP_ROUND JOIN_ROUND 8 5 singleSided 0.01.

Definition baseLine : Geometry := LineString fact0 [xy 0 0; xy 10 0].

(** The single-sided line of [LINESTRING (0 0, 10 0)] at distance 1 on the
    left. *)
Example left_offset_line :
  fst (bufferLineSingleSided baseLine 1 true (newBufferBuilder (roundParams false))) =
    Ok (LineString fact0
          [mkCoordinate 0 1 nan; mkCoordinate 10 1 nan]).
Proof. vm_compute. reflexivity. Qed.

Definition plainBuilder : BufferBuilder Label := newBufferBuilder (roundParams false).
Definition singleSidedBuilder : BufferBuilder Label := newBufferBuilder (roundParams true).

(** A point is refused; a line at distance 0, of either sign, comes back
    as it is. *)
Example point_refused :
  fst (bufferLineSingleSided (Point fact0 [xy 0 0]) 1 true plainBuilder) =
    Throw (IllegalArgumentException
             "BufferBuilder::bufferLineSingleSided only accept linestrings").
Proof. reflexivity. Qed.

Example zero_distance_clone :
  fst (bufferLineSingleSided baseLine 0 true plainBuilder) = Ok baseLine /\
  fst (bufferLineSingleSided baseLine (-0) false plainBuilder) = Ok baseLine.
Proof. split; vm_compute; reflexivity. Qed.

(** Of three noded substrings, the one that collapses to a point is left
    out and the one with a repeated point loses it. *)
Example noded_edges :
  getCoordinates <$>
    edgeList (snd (computeNodedEdges
      [mkSegmentString [xy 0 0; xy 1 0] (curveLabel BOUNDARY EXTERIOR INTERIOR);
       mkSegmentString [xy 2 2; xy 2 2; xy 2 2] (curveLabel BOUNDARY EXTERIOR INTERIOR);
       mkSegmentString [xy 1 0; xy 1 0; xy 1 1] (curveLabel BOUNDARY EXTERIOR INTERIOR)]
      FLOATING plainBuilder)) =
  [[xy 0 0; xy 1 0]; [xy 1 0; xy 1 1]].
Proof. vm_compute. reflexivity. Qed.

(** C3, as stated, fails: a line buffered by 0 yields no curves, and the
    result is the empty polygon, not an empty line. *)
Lemma buffer_no_curves_line_counterexample :
  getCurves baseLine 0 (selectPrecisionModel plainBuilder baseLine)
            (bufParams plainBuilder) (isInvertOrientation plainBuilder) = [] /\
  fst (buffer baseLine 0 plainBuilder) = Ok (Polygon fact0 [] []) /\
  ~ (exists r, fst (buffer baseLine 0 plainBuilder) = Ok r /\ isLineString r = true).
Proof.
  split; [reflexivity|]. split; [vm_compute; reflexivity|].
  intros (r & Hr & Hline). vm_compute in Hr. injection Hr as <-. discriminate.
Qed.

Lemma buffer_no_curves_empty_polygon_witness :
  fst (buffer (Polygon fact0 [] []) 1 plainBuilder) = Ok (createPolygon fact0).
Proof.
  refine (proj1 (buffer_no_curves_empty_polygon (Polygon fact0 [] []) 1 plainBuilder _ _));
    reflexivity.
Defined.


(** The input line runs from (0 0) to (1.5 0); the merged line starts near
    its end point and goes on near its start point. *)
Definition bentStart : Coordinate := xy 0 0.
Definition bentEnd : Coordinate := xy 1.5 0.
Definition mergedLine : list Coordinate := [xy 1.5 0.5; xy 0.5 0.5; xy 0.5 1.5; xy 0.5 5].

(** The removal test of C4 as stated: the vertex is within the allowance of
    the start point or of the end point, and the segment next to it is not
    longer than its allowance, both taken from [|d|]. *)
Definition statedRemovable (startPoint endPoint : Coordinate)
    (distance lineLength : float) (p q : Coordinate) : bool :=
  (nearer startPoint (ptDistAllowanceOf (abs distance) lineLength) p
   || nearer endPoint (ptDistAllowanceOf (abs distance) lineLength) p)
  && notLonger (segLengthAllowanceOf (abs distance)) p q.

(** C4, as stated, fails: the front of the merged line is trimmed against
    the end point after the start point, so the trimming stops at a vertex
    that is within the allowance of the start point and has a short segment
    next to it, with three points left. *)
Lemma trimEndPoints_stops_early_counterexample :
  trimEndPoints bentStart bentEnd 1 1.5 mergedLine =
    Some [xy 0.5 0.5; xy 0.5 1.5; xy 0.5 5] /\
  statedRemovable bentStart bentEnd 1 1.5 (xy 0.5 0.5) (xy 0.5 1.5) = true.
Proof. split; vm_compute; reflexivity. Qed.

Lemma trimEndPoints_four_passes_witness :
  trimMergedLines fact0 bentStart bentEnd 1 1.5 [mergedLine] =
    [LineString fact0 [xy 0.5 0.5; xy 0.5 1.5; xy 0.5 5]].
Proof.
  refine (eq_trans (proj2 (trimEndPoints_four_passes fact0 bentStart bentEnd 1 1.5
                             [mergedLine] _)) _).
  - repeat constructor. vm_compute. discriminate.
  - vm_compute. reflexivity.
Defined.

Definition threeNodes : @PlanarGraph Label world :=
  [(xy 1 0, false); (xy 5 0, false); (xy 3 0, false)].

Definition noPolygons : @PolygonBuilder Label world := [].

Example sorted_three :
  getRightmostCoordinate <$> snd (createSubgraphs threeNodes []) = [xy 5 0; xy 3 0; xy 1 0].
Proof. vm_compute. reflexivity. Qed.

Lemma subgraphs_sorted_and_queried_in_order_witness :
  Permutation (snd (createSubgraphs threeNodes [])) (extractedSubgraphs threeNodes) /\
  forall i j a b, (i < j)%nat ->
    snd (createSubgraphs threeNodes []) !! i = Some a ->
    snd (createSubgraphs threeNodes []) !! j = Some b ->
    (cx (getRightmostCoordinate a) <? cx (getRightmostCoordinate b)) = false.
Proof.
  destruct (subgraphs_sorted_and_queried_in_order threeNodes
              (fun a b => eq_refl)) as (Hperm & Hsorted & _).
  split; [exact Hperm|exact Hsorted].
Defined.

Lemma bufferLineSingleSided_result_by_count_witness :
  fst (bufferLineSingleSided baseLine 1 true plainBuilder) =
    Ok (LineString fact0 [mkCoordinate 0 1 nan; mkCoordinate 10 1 nan]).
Proof.
  refine (proj1 (proj2 (bufferLineSingleSided_result_by_count
            baseLine [xy 0 0; xy 10 0] 1 true plainBuilder (Polygon fact0 [] [])
            [[mkCoordinate 0 1 nan; mkCoordinate 10 1 nan]] eq_refl eq_refl _ _)) _ _);
    vm_compute; reflexivity.
Defined.

Definition unitSquare : list Coordinate := [xy 0 0; xy 1 0; xy 1 1; xy 0 1; xy 0 0].
Definition bigSquare : list Coordinate :=
  [xy (-1) (-1); xy 2 (-1); xy 2 2; xy (-1) 2; xy (-1) (-1)].

Lemma cleanupSingleSided_keeps_largest_witness :
  exists p, cleanupSingleSided (LinearRing fact0 unitSquare) (Polygon fact0 bigSquare []) = Ok p /\
            (0 <? getArea p) = true.
Proof.
  edestruct (cleanupSingleSided_keeps_largest
               (LinearRing fact0 unitSquare) (Polygon fact0 bigSquare []))
    as (_ & Hbig & _); [vm_compute; reflexivity|].
  destruct Hbig as (p & Hp & _ & Hpos & _).
  - vm_compute. lia.
  - exists (Polygon fact0 unitSquare []). split; [by left | vm_compute; reflexivity].
  - exists p. by split.
Defined.

(** Squares so small that the products of their coordinates underflow:
    their areas are computed as 0. *)
Definition tinySquare (side : float) : list Coordinate :=
  [xy 0 0; xy side 0; xy side side; xy 0 side; xy 0 0].

Definition tinyRing : Geometry := LinearRing fact0 (tinySquare 0x1p-600).
Definition tinyResult : Geometry :=
  Polygon fact0 (tinySquare 0x1p-598) [tinySquare 0x1p-599].

(** C9, as stated, fails: three polygons are formed, none has an area
    above 0, and the buffer result is returned, which is none of them. *)
Lemma cleanupSingleSided_no_positive_area_counterexample :
  let polys := polygonize (Collection fact0 MULTILINESTRING
                 (components tinyRing ++ components (getBoundary tinyResult))) in
  overlayUnion tinyRing (getBoundary tinyResult) =
    Ok (Collection fact0 MULTILINESTRING
          (components tinyRing ++ components (getBoundary tinyResult))) /\
  length polys = 3%nat /\
  cleanupSingleSided tinyRing tinyResult = Ok tinyResult /\
  tinyResult ∉ polys.
Proof.
  cbv zeta. split; [reflexivity|]. split; [vm_compute; reflexivity|].
  split; [vm_compute; reflexivity|].
  vm_compute. intros Hin. repeat (apply elem_of_cons in Hin as [Heq|Hin]; [discriminate Heq|]).
  inversion Hin.
Qed.

End Samples.

(** ** More on the edge list *)

Section EdgeListFacts.

Context {Label : Type} `{LabelOps Label} `{Collaborators Label}.

Implicit Types (e ex : Edge Label) (el : EdgeList Label).

(** The coordinate chains of the edges of a list, in order. *)
Definition chainsOf el : list (list Coordinate) := getCoordinates <$> el.

(** No edge of the list is equal to one placed before it. *)
Definition noEqualEdges el : Prop :=
  forall i j a b, (i < j)%nat -> el !! i = Some a -> el !! j = Some b ->
                  equalEdge a b = false.

Lemma chainsOf_insertUniqueEdge e el :
  chainsOf (insertUniqueEdge e el) =
    match findEqualEdge el e with
    | Some _ => chainsOf el
    | None => chainsOf el ++ [getCoordinates e]
    end.
Proof.
  unfold chainsOf. destruct (findEqualEdge el e) as [i|] eqn:Hf.
  - destruct (findEqualEdge_Some el e i Hf) as (ex & Hi & _).
    rewrite (insertUniqueEdge_existing el e i ex Hf Hi), list_fmap_insert.
    cbn [getCoordinates]. apply list_insert_id. by rewrite list_lookup_fmap, Hi.
  - rewrite (insertUniqueEdge_fresh el e Hf), fmap_app. reflexivity.
Qed.

Lemma noEqualEdges_chains el el' :
  chainsOf el = chainsOf el' -> noEqualEdges el -> noEqualEdges el'.
Proof.
  unfold chainsOf. intros Hc Hel i j a b Hij Hi Hj.
  assert (Ha : (getCoordinates <$> el) !! i = Some (getCoordinates a))
    by (by rewrite Hc, list_lookup_fmap, Hi).
  assert (Hb : (getCoordinates <$> el) !! j = Some (getCoordinates b))
    by (by rewrite Hc, list_lookup_fmap, Hj).
  rewrite list_lookup_fmap in Ha, Hb.
  destruct (el !! i) as [a'|] eqn:Hi'; [|discriminate].
  destruct (el !! j) as [b'|] eqn:Hj'; [|discriminate].
  injection Ha as Ha. injection Hb as Hb.
  specialize (Hel i j a' b' Hij Hi' Hj').
  unfold equalEdge in *. by rewrite <- Ha, <- Hb.
Qed.

Lemma insertUniqueEdge_noEqualEdges e el :
  noEqualEdges el -> noEqualEdges (insertUniqueEdge e el).
Proof.
  intros Hel. destruct (findEqualEdge el e) as [k|] eqn:Hf.
  - apply (noEqualEdges_chains el); [|exact Hel].
    by rewrite chainsOf_insertUniqueEdge, Hf.
  - rewrite (insertUniqueEdge_fresh el e Hf). intros i j a b Hij Hi Hj.
    assert (Hlt : (i < length el)%nat).
    { apply lookup_lt_Some in Hj. rewrite length_app in Hj. cbn in Hj. lia. }
    rewrite lookup_app_l in Hi by exact Hlt.
    destruct (decide (j < length el)%nat) as [Hj'|Hj'].
    + rewrite lookup_app_l in Hj by exact Hj'. by apply (Hel i j).
    + rewrite lookup_app_r in Hj by lia.
      destruct (j - length el)%nat as [|n] eqn:Hn; [|by destruct n].
      injection Hj as <-.
      assert (Heq : equalEdge a e = false).
      { apply (proj1 (findEqualEdge_None el e) Hf). by eapply list_elem_of_lookup_2. }
      exact Heq.
Qed.

Lemma fold_insertUniqueEdge_noEqualEdges handed el :
  noEqualEdges el ->
  noEqualEdges (fold_left (fun el e => insertUniqueEdge e el) handed el).
Proof.
  revert el. induction handed as [|e handed IH]; intros el Hel; [exact Hel|].
  cbn [fold_left]. apply IH. by apply insertUniqueEdge_noEqualEdges.
Qed.

(** The edge list of [computeNodedEdges] as a fold over the edges handed
    on. *)
Lemma computeNodedEdges_edgeList bufferSegStrList pm (bb : BufferBuilder Label) :
  edgeList (snd (computeNodedEdges bufferSegStrList pm bb)) =
    fold_left (fun el e => insertUniqueEdge e el)
      match fst (getNoder pm bb) Label bufferSegStrList with
      | Ok nodedSegStrings => handedEdges nodedSegStrings
      | _ => []
      end (edgeList bb).
Proof.
  unfold computeNodedEdges, getNoder.
  destruct (workingNoder bb) as [noder|]; cbn [fst snd].
  - destruct (noder Label bufferSegStrList); cbn;
      [apply fold_insertNodedSubstring|done..].
  - destruct (MCIndexNoder pm Label bufferSegStrList); cbn;
      [apply fold_insertNodedSubstring|done..].
Qed.

(** X1: the edge list never comes to hold two equal edges: when no edge of
    the list equals one placed before it, the same holds after
    [insertUniqueEdge], and after [computeNodedEdges]. *)
Theorem edge_list_stays_free_of_equal_edges :
  (forall e el, noEqualEdges el -> noEqualEdges (insertUniqueEdge e el)) /\
  (forall bufferSegStrList pm (bb : BufferBuilder Label),
     noEqualEdges (edgeList bb) ->
     noEqualEdges (edgeList (snd (computeNodedEdges bufferSegStrList pm bb)))).
Proof.
  split; [apply insertUniqueEdge_noEqualEdges|].
  intros segs pm bb Hel. rewrite computeNodedEdges_edgeList.
  by apply fold_insertUniqueEdge_noEqualEdges.
Qed.

Lemma fold_insertUniqueEdge_chains handed el :
  exists added,
    chainsOf (fold_left (fun el e => insertUniqueEdge e el) handed el) =
      chainsOf el ++ added /\
    (length added <= length handed)%nat.
Proof.
  revert el. induction handed as [|e handed IH]; intros el.
  - exists []. by rewrite app_nil_r.
  - cbn [fold_left]. destruct (IH (insertUniqueEdge e el)) as (added & -> & Hlen).
    rewrite chainsOf_insertUniqueEdge. destruct (findEqualEdge el e).
    + exists added. split; [reflexivity|]. cbn. lia.
    + exists (getCoordinates e :: added). rewrite <- app_assoc.
      split; [reflexivity|]. cbn. lia.
Qed.

Lemma handedEdges_length (nodedSegStrings : list (SegmentString Label)) :
  (length (handedEdges nodedSegStrings) <= length nodedSegStrings)%nat.
Proof.
  unfold handedEdges. induction nodedSegStrings as [|s l IH]; [done|].
  cbn [omap list_omap]. cbv zeta.
  destruct (length (removeRepeatedPoints (ss_coords s)) <? 2)%nat; cbn [length].
  - apply Nat.le_le_succ_r. exact IH.
  - apply (proj1 (Nat.succ_le_mono _ _)). exact IH.
Qed.

(** X2: the edge list only grows at its end, and the chains it holds never
    change: [insertUniqueEdge] keeps every chain in its place and adds at
    most the chain of the inserted edge, which it does exactly when no equal
    edge is found; [computeNodedEdges] adds at most one chain per noded
    substring. *)
Theorem edge_list_only_grows :
  (forall e el,
     chainsOf (insertUniqueEdge e el) =
       chainsOf el ++ match findEqualEdge el e with
                      | Some _ => []
                      | None => [getCoordinates e]
                      end) /\
  (forall bufferSegStrList pm (bb : BufferBuilder Label),
     exists added,
       chainsOf (edgeList (snd (computeNodedEdges bufferSegStrList pm bb))) =
         chainsOf (edgeList bb) ++ added /\
       match fst (getNoder pm bb) Label bufferSegStrList with
       | Ok nodedSegStrings => (length added <= length nodedSegStrings)%nat
       | _ => added = []
       end).
Proof.
  split.
  - intros e el. rewrite chainsOf_insertUniqueEdge.
    destruct (findEqualEdge el e); [by rewrite app_nil_r|reflexivity].
  - intros segs pm bb. rewrite computeNodedEdges_edgeList.
    destruct (fst (getNoder pm bb) Label segs) as [noded| |].
    + destruct (fold_insertUniqueEdge_chains (handedEdges noded) (edgeList bb))
        as (added & Hc & Hlen).
      exists added. split; [exact Hc|]. pose proof (handedEdges_length noded). lia.
    + exists []. by rewrite app_nil_r.
    + exists []. by rewrite app_nil_r.
Qed.

Lemma depthDelta_range (label : Label) : (-1 <= depthDelta label <= 1)%Z.
Proof.
  unfold depthDelta.
  destruct (bool_decide _ && bool_decide _); [lia|].
  destruct (bool_decide _ && bool_decide _); lia.
Qed.

(** Every depth delta of the list is at most [k] in absolute value. *)
Definition deltasWithin (k : Z) el : Prop :=
  Forall (fun e => (Z.abs (getDepthDelta e) <= k)%Z) el.

Lemma insertUniqueEdge_deltasWithin k e el :
  (0 <= k)%Z -> (k + 1 <= int_max)%Z ->
  deltasWithin k el -> deltasWithin (k + 1) (insertUniqueEdge e el).
Proof.
  intros Hk Hmax Hel.
  assert (Hel' : deltasWithin (k + 1) el).
  { eapply Forall_impl; [exact Hel|]. cbv beta. lia. }
  pose proof (depthDelta_range (getLabel e)) as He.
  destruct (findEqualEdge el e) as [i|] eqn:Hf.
  - destruct (findEqualEdge_Some el e i Hf) as (ex & Hi & _).
    rewrite (insertUniqueEdge_existing el e i ex Hf Hi).
    apply Forall_insert; [exact Hel'|]. cbn [getDepthDelta].
    pose proof (proj1 (Forall_lookup _ _) Hel i ex Hi) as Hex. cbv beta in Hex.
    pose proof (depthDelta_range (incomingLabel ex e)) as Hd.
    rewrite int_add_exact; [lia|].
    unfold in_int, int_min, int_max in *. lia.
  - rewrite (insertUniqueEdge_fresh el e Hf).
    apply Forall_app. split; [exact Hel'|]. constructor; [|constructor].
    cbn [getDepthDelta setDepthDelta]. lia.
Qed.

Lemma fold_insertUniqueEdge_deltasWithin handed k el :
  (0 <= k)%Z -> (k + Z.of_nat (length handed) <= int_max)%Z ->
  deltasWithin k el ->
  deltasWithin (k + Z.of_nat (length handed))
               (fold_left (fun el e => insertUniqueEdge e el) handed el).
Proof.
  revert k el. induction handed as [|e handed IH]; intros k el Hk Hmax Hel.
  - cbn [fold_left length]. by rewrite Z.add_0_r.
  - cbn [fold_left length] in *.
    replace (k + Z.of_nat (S (length handed)))%Z
      with ((k + 1) + Z.of_nat (length handed))%Z by lia.
    apply IH; [lia|lia|]. apply insertUniqueEdge_deltasWithin; [lia|lia|exact Hel].
Qed.

(** X3: the depth deltas do not overflow: in a builder whose edge list is
    empty, after [computeNodedEdges] over noded substrings that number at
    most [INT_MAX], every depth delta is at most the number of substrings in
    absolute value. *)
Theorem depth_deltas_bounded_by_substrings
    bufferSegStrList pm (bb : BufferBuilder Label) nodedSegStrings :
  edgeList bb = [] ->
  fst (getNoder pm bb) Label bufferSegStrList = Ok nodedSegStrings ->
  (Z.of_nat (length nodedSegStrings) <= int_max)%Z ->
  Forall (fun e => (Z.abs (getDepthDelta e) <= Z.of_nat (length nodedSegStrings))%Z)
         (edgeList (snd (computeNodedEdges bufferSegStrList pm bb))).
Proof.
  intros Hempty Hnoder Hmax. rewrite computeNodedEdges_edgeList, Hnoder, Hempty.
  pose proof (handedEdges_length nodedSegStrings) as Hlen.
  pose proof (fold_insertUniqueEdge_deltasWithin (handedEdges nodedSegStrings) 0 []
                ltac:(lia) ltac:(lia) ltac:(constructor)) as Hfold.
  eapply Forall_impl; [exact Hfold|]. cbv beta. lia.
Qed.

End EdgeListFacts.

(** ** More on subgraphs *)

Section SubgraphLoopFacts.

Context {Label : Type} `{LabelOps Label} `{Collaborators Label}.

(** Hands the elements of a list to [f] in order, threading a state. *)
Fixpoint foldM {S A : Type} (f : S -> A -> Result S) (l : list A) (s : S) : Result S :=
  match l with
  | [] => Ok s
  | a :: l' => let* s := f s a in foldM f l' s
  end.

Lemma foldM_snoc {S A : Type} (f : S -> A -> Result S) l a s s' :
  foldM f l s = Ok s' -> foldM f (l ++ [a]) s = f s' a.
Proof.
  revert s. induction l as [|b l IH]; intros s; cbn [app foldM].
  - intros [= ->]. by destruct (f s' a).
  - destruct (f s b); cbn [bind]; [apply IH|discriminate..].
Qed.

Lemma collectSubgraph_fold_length nodes graph (subgraphList : list BufferSubgraph) :
  (length (snd (fold_left collectSubgraph nodes (graph, subgraphList)))
   <= length subgraphList + length nodes)%nat.
Proof.
  revert graph subgraphList. induction nodes as [|node nodes IH];
    intros graph subgraphList; cbn [fold_left length snd]; [lia|].
  unfold collectSubgraph at 2. destruct (negb (isVisited graph node)).
  - destruct (create node graph) as [subgraph graph'].
    specialize (IH graph' (subgraphList ++ [subgraph])).
    rewrite length_app in IH. cbn [length] in IH. lia.
  - specialize (IH graph subgraphList). lia.
Qed.

Lemma collectSubgraph_fold_visited nodes graph (subgraphList : list BufferSubgraph) :
  (forall node, node ∈ nodes -> isVisited graph node = true) ->
  fold_left collectSubgraph nodes (graph, subgraphList) = (graph, subgraphList).
Proof.
  induction nodes as [|node nodes IH]; intros Hvisited; [reflexivity|].
  cbn [fold_left]. unfold collectSubgraph at 2.
  rewrite (Hvisited node) by constructor. cbn [negb].
  apply IH. intros n Hn. apply Hvisited. by constructor.
Qed.

(** X9: [createSubgraphs] makes at most one subgraph per node of the graph,
    keeps the subgraphs it is given, and when every node is already visited
    it makes none and leaves the graph as it is. *)
Theorem createSubgraphs_one_subgraph_per_node_at_most
    (graph : PlanarGraph) (subgraphList : list BufferSubgraph) :
  (length (snd (createSubgraphs graph subgraphList))
   <= length subgraphList + length (getNodes graph))%nat /\
  (exists created,
     Permutation (snd (createSubgraphs graph subgraphList)) (subgraphList ++ created)) /\
  ((forall node, node ∈ getNodes graph -> isVisited graph node = true) ->
   createSubgraphs graph [] = (graph, [])).
Proof.
  unfold createSubgraphs. split; [|split].
  - pose proof (collectSubgraph_fold_length (getNodes graph) graph subgraphList) as Hlen.
    destruct (fold_left collectSubgraph (getNodes graph) (graph, subgraphList))
      as [graph' l]. cbn [snd] in *.
    by rewrite (Permutation_length (std_sort_Permutation BufferSubgraphGT l)).
  - assert (Hgrow : forall nodes g l,
              exists created, snd (fold_left collectSubgraph nodes (g, l)) = l ++ created).
    { induction nodes as [|node nodes IH]; intros g l.
      - exists []. by rewrite app_nil_r.
      - cbn [fold_left]. unfold collectSubgraph at 2.
        destruct (negb (isVisited g node)); [|apply IH].
        destruct (create node g) as [subgraph g'].
        destruct (IH g' (l ++ [subgraph])) as [created Hc].
        exists (subgraph :: created). by rewrite Hc, <- app_assoc. }
    destruct (Hgrow (getNodes graph) graph subgraphList) as [created Hc].
    exists created.
    destruct (fold_left collectSubgraph (getNodes graph) (graph, subgraphList))
      as [graph' l]. cbn [snd] in *. subst l. apply std_sort_Permutation.
  - intros Hvisited. by rewrite collectSubgraph_fold_visited.
Qed.

Lemma seq_split_at (i n : nat) :
  (i < n)%nat -> seq 0 n = seq 0 i ++ i :: seq (S i) (n - S i).
Proof.
  intros Hi. replace n with (i + S (n - S i))%nat at 1 by lia.
  by rewrite seq_app.
Qed.

(** X7: the loop of [buildSubgraphs] ends at the first turn that throws:
    when the turns before turn [i] went through and turn [i] throws, be it
    in [computeDepth] or in the polygon builder, [buildSubgraphs] throws
    that exception. *)
Theorem buildSubgraphs_throws_at_first_failing_turn
    (subgraphList : list BufferSubgraph) (pb : PolygonBuilder) i st e :
  (i < length subgraphList)%nat ->
  runTurns buildSubgraph (seq 0 i) (mkBuildState subgraphList [] pb) = Ok st ->
  buildSubgraph st i = Throw e ->
  buildSubgraphs subgraphList pb = Throw e.
Proof.
  intros Hi Hrun Hturn. unfold buildSubgraphs. cbv zeta.
  rewrite (seq_split_at i _ Hi), runTurns_app, Hrun. cbn [bind runTurns].
  by rewrite Hturn.
Qed.

(** What the polygon builder has received before turn [i]. *)
Definition builderFed (pb : PolygonBuilder) (i : nat) (st : BuildState) : Prop :=
  foldM (fun pb subgraph => addSubgraph subgraph pb) (take i (subgraphs st)) pb =
    Ok (polyBuilder st).

Lemma buildSubgraph_builderFed subgraphList pb i st st' :
  beforeTurn subgraphList i st -> (i < length subgraphList)%nat ->
  builderFed pb i st ->
  buildSubgraph st i = Ok st' ->
  builderFed pb (S i) st'.
Proof.
  intros (Hp & Hlen & Hdrop) Hi Hfed. unfold buildSubgraph.
  destruct (subgraphs st !! i) as [sg|] eqn:Hsg; cbn [deref bind]; [|discriminate].
  unfold depthQuery.
  destruct (computeDepth _ sg) as [sg'| |]; cbn [bind]; [|discriminate..].
  destruct (addSubgraph _ (polyBuilder st)) as [pb'| |] eqn:Hadd; cbn [bind];
    [|discriminate..].
  intros [= <-]. unfold builderFed in *. cbn [subgraphs polyBuilder].
  rewrite (take_S_r _ _ (findResultEdges sg')).
  - rewrite take_insert_ge by lia. rewrite (foldM_snoc _ _ _ _ _ Hfed). exact Hadd.
  - apply list_lookup_insert_eq. lia.
Qed.

Lemma runTurns_builderFed subgraphList pb i st :
  (i <= length subgraphList)%nat ->
  runTurns buildSubgraph (seq 0 i) (mkBuildState subgraphList [] pb) = Ok st ->
  builderFed pb i st.
Proof.
  revert st. induction i as [|i IH]; intros st Hi.
  - intros [= <-]. reflexivity.
  - rewrite seq_S, runTurns_app. cbn [Nat.add].
    destruct (runTurns buildSubgraph (seq 0 i) _) as [st0| |] eqn:Hrun;
      cbn [bind runTurns]; [|discriminate..].
    destruct (buildSubgraph st0 i) as [st1| |] eqn:Hturn; cbn [bind];
      [|discriminate..].
    intros [= <-].
    apply (buildSubgraph_builderFed subgraphList pb i st0 st1); [|lia| |exact Hturn].
    + by apply runTurns_beforeTurn with pb.
    + apply IH; [lia|reflexivity].
Qed.

(** X8: when [buildSubgraphs] returns, every subgraph has been processed,
    in the order of the list, and the polygon builder has received the
    processed subgraphs one by one in that order. *)
Theorem buildSubgraphs_feeds_polygon_builder_in_order
    (subgraphList : list BufferSubgraph) (pb : PolygonBuilder) st :
  buildSubgraphs subgraphList pb = Ok st ->
  processedGraphs st = seq 0 (length subgraphList) /\
  length (subgraphs st) = length subgraphList /\
  foldM (fun pb subgraph => addSubgraph subgraph pb) (subgraphs st) pb =
    Ok (polyBuilder st).
Proof.
  unfold buildSubgraphs. cbv zeta. intros Hrun.
  destruct (runTurns_beforeTurn _ _ _ _ Hrun) as (Hp & Hlen & _).
  split; [exact Hp|]. split; [exact Hlen|].
  pose proof (runTurns_builderFed _ _ _ _ (Nat.le_refl _) Hrun) as Hfed.
  unfold builderFed in Hfed. by rewrite take_ge in Hfed by lia.
Qed.

End SubgraphLoopFacts.

(** ** More on [buffer] *)

Section BufferStateFacts.

Context {Label : Type} `{LabelOps Label} `{Collaborators Label}.

Implicit Types (g : Geometry) (bb : BufferBuilder Label).

(** The fields of the builder that no method assigns. *)
Definition sameSetup bb bb' : Prop :=
  bufParams bb' = bufParams bb /\
  workingPrecisionModel bb' = workingPrecisionModel bb /\
  workingNoder bb' = workingNoder bb /\
  isInvertOrientation bb' = isInvertOrientation bb.

Lemma sameSetup_refl bb : sameSetup bb bb.
Proof. by repeat split. Qed.

Lemma computeNodedEdges_frame bufferSegStrList pm bb :
  sameSetup bb (snd (computeNodedEdges bufferSegStrList pm bb)) /\
  geomFact (snd (computeNodedEdges bufferSegStrList pm bb)) = geomFact bb.
Proof.
  unfold computeNodedEdges, getNoder, sameSetup.
  destruct (workingNoder bb) as [noder|] eqn:Hn.
  - destruct (noder Label bufferSegStrList); cbn; by rewrite ?Hn.
  - destruct (MCIndexNoder pm Label bufferSegStrList); cbn; by rewrite ?Hn.
Qed.

Lemma computeNodedEdges_outcome bufferSegStrList pm bb :
  fst (computeNodedEdges bufferSegStrList pm bb) =
    match fst (getNoder pm bb) Label bufferSegStrList with
    | Ok _ => Ok tt
    | Throw e => Throw e
    | Undefined => Undefined
    end.
Proof.
  unfold computeNodedEdges, getNoder.
  destruct (workingNoder bb) as [noder|]; cbn [fst].
  - by destruct (noder Label bufferSegStrList).
  - by destruct (MCIndexNoder pm Label bufferSegStrList).
Qed.

(** [bufferWhole] in terms of the outcome and the final state of
    [computeNodedEdges]. *)
Lemma bufferWhole_unfold g distance bb :
  let pm := selectPrecisionModel bb g in
  let bb0 := set_geomFact (getFactory g) bb in
  let curves := getCurves g distance pm (bufParams bb) (isInvertOrientation bb) in
  bufferWhole g distance bb =
    match curves with
    | [] => (Ok (createPolygon (getFactory g)), bb0)
    | _ :: _ =>
        let bb1 := snd (computeNodedEdges curves pm bb0) in
        (match fst (computeNodedEdges curves pm bb0) with
         | Ok _ => buildResult g bb1
         | Throw e => Throw e
         | Undefined => Undefined
         end, bb1)
    end.
Proof.
  cbv zeta. unfold bufferWhole. cbn [bufParams isInvertOrientation set_geomFact].
  destruct (getCurves g distance _ _ _) as [|c curves]; [reflexivity|].
  destruct (computeNodedEdges _ _ _) as [[u|e|] bb1]; reflexivity.
Qed.

(** X5: [buffer] assigns none of the settings of the builder: the
    parameters, the working precision model, the working noder and the
    orientation flag are the same after the call, whatever its outcome; and
    a builder that buffers the geometry as a whole ends with the factory of
    the input as its factory. *)
Theorem buffer_keeps_setup g distance bb :
  let bb' := snd (buffer g distance bb) in
  sameSetup bb bb' /\
  (isSingleSided (bufParams bb) && (1 <? getNumGeometries g)%nat = false ->
   geomFact bb' = Some (getFactory g)).
Proof.
  cbv zeta. rewrite buffer_unfold.
  destruct (isSingleSided (bufParams bb) && (1 <? getNumGeometries g)%nat).
  - cbn [snd]. split; [apply sameSetup_refl|discriminate].
  - pose proof (bufferWhole_unfold g distance bb) as Hw. cbv zeta in Hw. rewrite Hw.
    destruct (getCurves g distance _ _ _) as [|c curves]; cbn [snd].
    + split; [by repeat split|done].
    + set (bb0 := set_geomFact (getFactory g) bb).
      destruct (computeNodedEdges_frame (c :: curves) (selectPrecisionModel bb g) bb0)
        as [(Hp & Hw1 & Hn & Hi) Hf].
      split; [by repeat split|by rewrite Hf].
Qed.

(** X4: when the noder throws on the curves of the geometry, [buffer]
    throws the same exception and no edge has been added to the edge
    list. *)
Theorem buffer_throws_what_the_noder_throws g distance bb c curves e :
  isSingleSided (bufParams bb) && (1 <? getNumGeometries g)%nat = false ->
  getCurves g distance (selectPrecisionModel bb g) (bufParams bb)
            (isInvertOrientation bb) = c :: curves ->
  fst (getNoder (selectPrecisionModel bb g) bb) Label (c :: curves) = Throw e ->
  fst (buffer g distance bb) = Throw e /\
  edgeList (snd (buffer g distance bb)) = edgeList bb.
Proof.
  intros Hwhole Hcurves Hnoder. rewrite buffer_unfold, Hwhole.
  pose proof (bufferWhole_unfold g distance bb) as Hw. cbv zeta in Hw.
  rewrite Hw, Hcurves. cbn [fst snd].
  assert (Hnoder' : fst (getNoder (selectPrecisionModel bb g)
                           (set_geomFact (getFactory g) bb)) Label (c :: curves)
                    = Throw e).
  { revert Hnoder. unfold getNoder. cbn [workingNoder set_geomFact].
    by destruct (workingNoder bb). }
  rewrite computeNodedEdges_outcome, computeNodedEdges_edgeList, Hnoder'.
  done.
Qed.

Lemma buildResult_unfold g bb f graph st :
  geomFact bb = Some f ->
  addEdges (edgeList bb) = Ok graph ->
  buildSubgraphs (snd (createSubgraphs graph [])) (newPolygonBuilder f) = Ok st ->
  buildResult g bb = finishResult g bb f (getPolygons (polyBuilder st)).
Proof.
  intros Hf Hgraph Hbuild. unfold buildResult. rewrite Hgraph, Hf. cbn [bind deref].
  destruct (createSubgraphs graph []) as [graph' l]. cbn [snd] in Hbuild.
  by rewrite Hbuild.
Qed.

(** X6: once the graph stage went through, the result of [buffer] is read
    off the polygons of the polygon builder: without polygons it is the
    empty polygon of the input's factory, with [singleSided] on or off; with
    polygons and [singleSided] off it is the geometry the factory builds
    from them, untouched by the clean-up. *)
Theorem buffer_result_from_polygons g distance bb c curves nodedSegStrings graph st :
  isSingleSided (bufParams bb) && (1 <? getNumGeometries g)%nat = false ->
  let pm := selectPrecisionModel bb g in
  let bb0 := set_geomFact (getFactory g) bb in
  getCurves g distance pm (bufParams bb) (isInvertOrientation bb) = c :: curves ->
  fst (getNoder pm bb) Label (c :: curves) = Ok nodedSegStrings ->
  addEdges (edgeList (snd (computeNodedEdges (c :: curves) pm bb0))) = Ok graph ->
  buildSubgraphs (snd (createSubgraphs graph []))
                 (newPolygonBuilder (getFactory g)) = Ok st ->
  let polys := getPolygons (polyBuilder st) in
  (polys = [] -> fst (buffer g distance bb) = Ok (createPolygon (getFactory g))) /\
  (polys <> [] -> isSingleSided (bufParams bb) = false ->
   fst (buffer g distance bb) = Ok (buildGeometry (getFactory g) polys)).
Proof.
  intros Hwhole pm bb0 Hcurves Hnoder Hgraph Hbuild polys.
  assert (Hres : fst (buffer g distance bb) =
                 finishResult g (snd (computeNodedEdges (c :: curves) pm bb0))
                              (getFactory g) polys).
  { rewrite buffer_unfold, Hwhole.
    pose proof (bufferWhole_unfold g distance bb) as Hw. cbv zeta in Hw.
    rewrite Hw. fold pm. rewrite Hcurves. fold bb0. cbn [fst].
    assert (Hnoder' : fst (getNoder pm bb0) Label (c :: curves) = Ok nodedSegStrings).
    { revert Hnoder. unfold getNoder, bb0. cbn [workingNoder set_geomFact].
      by destruct (workingNoder bb). }
    rewrite computeNodedEdges_outcome, Hnoder'.
    apply buildResult_unfold with graph; [|exact Hgraph|exact Hbuild].
    by rewrite (proj2 (computeNodedEdges_frame (c :: curves) pm bb0)). }
  rewrite Hres. unfold finishResult.
  destruct (computeNodedEdges_frame (c :: curves) pm bb0) as [(Hp & _) Hf].
  split.
  - intros ->. unfold createEmptyResultGeometry. by rewrite Hf.
  - intros Hne Hss. destruct polys as [|p ps]; [done|].
    rewrite Hp. cbn [bufParams set_geomFact bb0]. by rewrite Hss.
Qed.

Lemma mapM_Forall2 {A B : Type} (f : A -> Result B) l bs :
  Forall2 (fun a b => f a = Ok b) l bs -> mapM f l = Ok bs.
Proof.
  induction 1 as [|a b l bs Hab _ IH]; [reflexivity|].
  cbn [mapM]. by rewrite Hab, IH.
Qed.

Lemma mapM_first_throw {A B : Type} (f : A -> Result B) pre a post e :
  Forall (fun x => exists b, f x = Ok b) pre -> f a = Throw e ->
  mapM f (pre ++ a :: post) = Throw e.
Proof.
  intros Hpre Ha. induction Hpre as [|x pre [b Hx] _ IH]; cbn [app mapM].
  - by rewrite Ha.
  - by rewrite Hx, IH.
Qed.

(** X10: on the per-component path of [buffer], when the buffer of every
    component returns, the union is taken of exactly these buffers, one per
    component and in the order of the components; and when the buffer of a
    component throws after the ones before it returned, [buffer] throws that
    exception and takes no union. *)
Theorem buffer_singleSided_component_outcomes g distance bb :
  isSingleSided (bufParams bb) = true ->
  (1 < getNumGeometries g)%nat ->
  let bufferOne subgeom :=
    fst (buffer subgeom distance (newBufferBuilder (bufParams bb))) in
  (forall buffers,
     Forall2 (fun subgeom b => bufferOne subgeom = Ok b) (components g) buffers ->
     fst (buffer g distance bb) = unaryUnion buffers) /\
  (forall pre subgeom post e,
     components g = pre ++ subgeom :: post ->
     Forall (fun x => exists b, bufferOne x = Ok b) pre ->
     bufferOne subgeom = Throw e ->
     fst (buffer g distance bb) = Throw e).
Proof.
  intros Hss Hn bufferOne. apply Nat.ltb_lt in Hn.
  rewrite buffer_unfold, Hss, Hn. cbn [andb fst]. fold bufferOne. split.
  - intros buffers Hall. by rewrite (mapM_Forall2 _ _ _ Hall).
  - intros pre subgeom post e -> Hpre He.
    by rewrite (mapM_first_throw _ _ _ _ _ Hpre He).
Qed.

End BufferStateFacts.

(** ** More on the single-sided line *)

Section TrimShapeFacts.

Implicit Types coords : list Coordinate.

Lemma stripFront_suffix refPoint a s coords :
  exists removed, coords = removed ++ stripFront refPoint a s coords.
Proof.
  induction coords as [|p coords IH]; [by exists []|].
  destruct coords as [|q coords]; [by exists []|].
  rewrite stripFront_cons. destruct (nearer _ _ _ && notLonger _ _ _).
  - destruct IH as [removed IH]. exists (p :: removed). cbn [app]. by rewrite <- IH.
  - by exists [].
Qed.

Lemma stripBack_prefix refPoint a s coords :
  exists removed, coords = stripBack refPoint a s coords ++ removed.
Proof.
  unfold stripBack. destruct (stripFront_suffix refPoint a s (rev coords)) as [removed Hr].
  exists (rev removed).
  rewrite <- rev_app_distr, <- Hr. by rewrite rev_involutive.
Qed.

Lemma trimmedChain_infix startPoint endPoint distance lineLength coords :
  exists front back,
    coords = front ++ trimmedChain startPoint endPoint distance lineLength coords ++ back.
Proof.
  unfold trimmedChain.
  set (a := ptDistAllowanceOf distance lineLength).
  set (s := segLengthAllowanceOf distance).
  destruct (stripFront_suffix startPoint a s coords) as [f1 H1].
  destruct (stripFront_suffix endPoint a s (stripFront startPoint a s coords))
    as [f2 H2].
  set (c2 := stripFront endPoint a s (stripFront startPoint a s coords)) in *.
  destruct (stripBack_prefix startPoint a s c2) as [b1 H3].
  destruct (stripBack_prefix endPoint a s (stripBack startPoint a s c2)) as [b2 H4].
  exists (f1 ++ f2), (b2 ++ b1).
  rewrite H1 at 1. rewrite H2 at 1. rewrite H3 at 1. rewrite H4 at 1.
  by rewrite <- !app_assoc.
Qed.

(** X11: what [trimEndPoints] keeps of a merged line is a run of
    consecutive points of the line with at least two points: points are only
    removed, and only at the two ends; a line of fewer than two points is
    dropped. *)
Theorem trimEndPoints_keeps_a_run_of_the_line
    startPoint endPoint distance lineLength coords :
  (size coords <= size_max)%Z ->
  (forall kept,
     trimEndPoints startPoint endPoint distance lineLength coords = Some kept ->
     (2 <= length kept)%nat /\
     exists front back, coords = front ++ kept ++ back) /\
  ((length coords < 2)%nat ->
   trimEndPoints startPoint endPoint distance lineLength coords = None).
Proof.
  intros Hmax.
  pose proof (trimEndPoints_trimmedChain startPoint endPoint distance lineLength
                coords Hmax) as Heq. cbv zeta in Heq.
  destruct (trimmedChain_infix startPoint endPoint distance lineLength coords)
    as (front & back & Hinfix).
  split.
  - intros kept Hkept. rewrite Heq in Hkept.
    destruct (1 <? length _)%nat eqn:Hlen; [|discriminate].
    injection Hkept as <-. apply Nat.ltb_lt in Hlen. split; [lia|]. eauto.
  - intros Hshort. rewrite Heq.
    assert (Hle : (length (trimmedChain startPoint endPoint distance lineLength coords)
                   <= length coords)%nat).
    { rewrite Hinfix at 2. rewrite !length_app. lia. }
    by rewrite (proj2 (Nat.ltb_ge 1 _)) by lia.
Qed.

Lemma trimFront_sz fuel coords refPoint a s front sz :
  (0 <= sz <= size_max)%Z ->
  (0 <= snd (trimFront fuel coords refPoint a s front sz) <= sz)%Z.
Proof.
  revert front sz. induction fuel as [|fuel IH]; intros front sz Hsz;
    cbn [trimFront]; [cbn; lia|].
  destruct (1 <? sz)%Z eqn:H1; [|cbn; lia].
  destruct (_ <? a)%float; [|cbn; lia].
  destruct (s <? _)%float; [cbn; lia|].
  apply Z.ltb_lt in H1.
  assert (Hsub : size_sub sz 1 = (sz - 1)%Z)
    by (apply wrap_size_id; unfold size_max in *; lia).
  rewrite Hsub. specialize (IH (size_add front 1) (sz - 1)%Z ltac:(lia)). lia.
Qed.

Lemma trimBack_sz fuel coords refPoint a s back sz :
  (0 <= sz <= size_max)%Z ->
  (0 <= snd (trimBack fuel coords refPoint a s back sz) <= sz)%Z.
Proof.
  revert back sz. induction fuel as [|fuel IH]; intros back sz Hsz;
    cbn [trimBack]; [cbn; lia|].
  destruct (1 <? sz)%Z eqn:H1; [|cbn; lia].
  destruct (_ <? a)%float; [|cbn; lia].
  destruct (s <? _)%float; [cbn; lia|].
  apply Z.ltb_lt in H1.
  assert (Hsub : size_sub sz 1 = (sz - 1)%Z)
    by (apply wrap_size_id; unfold size_max in *; lia).
  rewrite Hsub. specialize (IH (size_sub back 1) (sz - 1)%Z ltac:(lia)). lia.
Qed.

(** Whatever the size of the line, a line that is kept has two points. *)
Lemma trimEndPoints_two_points startPoint endPoint distance lineLength coords kept :
  trimEndPoints startPoint endPoint distance lineLength coords = Some kept ->
  (2 <= length kept)%nat.
Proof.
  unfold trimEndPoints. cbv zeta.
  set (a := ptDistAllowanceOf distance lineLength).
  set (s := segLengthAllowanceOf distance).
  set (sz0 := size_add (size_sub (size_sub (size coords) 1) 0) 1).
  assert (Hsz0 : (0 <= sz0 <= size_max)%Z /\ (sz0 <= size coords)%Z).
  { unfold sz0, size_add, size_sub, wrap_size, size_max, size.
    set (N := Z.of_nat (length coords)). assert (0 <= N)%Z by (unfold N; lia).
    rewrite Z.sub_0_r, Zmod_mod, Zplus_mod_idemp_l.
    replace (N - 1 + 1)%Z with N by lia.
    pose proof (Z.mod_pos_bound N (2 ^ 64) ltac:(lia)).
    pose proof (Z.mod_le N (2 ^ 64) ltac:(lia) ltac:(lia)). lia. }
  pose proof (trimFront_sz (length coords) coords startPoint a s 0 sz0 (proj1 Hsz0)) as H1.
  destruct (trimFront (length coords) coords startPoint a s 0 sz0) as [f1 n1].
  cbn [snd] in H1.
  pose proof (trimFront_sz (length coords) coords endPoint a s f1 n1 ltac:(lia)) as H2.
  destruct (trimFront (length coords) coords endPoint a s f1 n1) as [f2 n2].
  cbn [snd] in H2.
  pose proof (trimBack_sz (length coords) coords startPoint a s
                (size_sub (size coords) 1) n2 ltac:(lia)) as H3.
  destruct (trimBack (length coords) coords startPoint a s _ n2) as [b3 n3].
  cbn [snd] in H3.
  pose proof (trimBack_sz (length coords) coords endPoint a s b3 n3 ltac:(lia)) as H4.
  destruct (trimBack (length coords) coords endPoint a s b3 n3) as [b4 n4].
  cbn [snd] in H4.
  destruct (1 <? n4)%Z eqn:Hn4; [|discriminate]. apply Z.ltb_lt in Hn4.
  destruct (n4 <? size coords)%Z eqn:Hlt.
  - intros [= <-]. rewrite length_fmap, length_seqZ. lia.
  - intros [= <-]. apply Z.ltb_ge in Hlt. unfold size in *. lia.
Qed.

End TrimShapeFacts.

Section SingleSidedResultFacts.

Context {Label : Type} `{LabelOps Label} `{Collaborators Label}.

Implicit Types (g : Geometry) (bb : BufferBuilder Label).

(** A line string of the factory with at least two points. *)
Definition twoPointLine (f : GeometryFactory) (t : Geometry) : Prop :=
  exists pts, t = LineString f pts /\ (2 <= length pts)%nat.

(** The results of the single-sided line at a distance other than 0. *)
Definition linealResult (f : GeometryFactory) (r : Geometry) : Prop :=
  r = LineString f [] \/
  twoPointLine f r \/
  exists lines, r = Collection f MULTILINESTRING lines /\
                (2 <= length lines)%nat /\ Forall (twoPointLine f) lines.

Lemma trimMergedLines_twoPointLines f startPoint endPoint distance lineLength mergedLines :
  Forall (twoPointLine f)
         (trimMergedLines f startPoint endPoint distance lineLength mergedLines).
Proof.
  unfold trimMergedLines. induction (rev mergedLines) as [|coords ls IH];
    cbn [omap list_omap]; [constructor|].
  destruct (trimEndPoints startPoint endPoint distance lineLength coords) as [kept|]
    eqn:Hkept; cbn [fmap option_fmap option_map]; [|exact IH].
  constructor; [|exact IH]. exists kept. split; [reflexivity|].
  by eapply trimEndPoints_two_points.
Qed.

Lemma lineResult_lineal f lines :
  Forall (twoPointLine f) lines -> linealResult f (lineResult f lines).
Proof.
  intros Hlines. unfold lineResult, linealResult.
  destruct lines as [|l1 [|l2 lines]]; cbn [length Nat.ltb Nat.leb].
  - by left.
  - right. left. by inversion Hlines.
  - right. right. eexists. split; [reflexivity|]. split; [cbn; lia|exact Hlines].
Qed.

(** X12: whatever [bufferLineSingleSided] returns is made of lines: at
    distance 0 it is the input line itself, and at any other distance it is
    the empty line string, a line string of at least two points, or a
    multi-line string of at least two line strings of at least two points
    each, all of the factory of the input; it is never areal. *)
Theorem bufferLineSingleSided_returns_lines g distance leftSide bb r :
  fst (bufferLineSingleSided g distance leftSide bb) = Ok r ->
  isaLineString g /\
  ((distance =? 0)%float = true -> r = g) /\
  ((distance =? 0)%float = false -> linealResult (getFactory g) r).
Proof.
  unfold bufferLineSingleSided.
  destruct (asLineString g) as [l|] eqn:Hl; [|discriminate].
  assert (Hg : isaLineString g) by (destruct g; done).
  destruct (distance =? 0)%float.
  - intros [= <-]. by repeat split.
  - intros Hr. split; [exact Hg|]. split; [discriminate|]. intros _. revert Hr.
    destruct (fst (buffer g distance _)) as [buf| |]; [|discriminate..].
    destruct (getNoder _ _) as [noder bb1] eqn:Hnoder.
    assert (Hfact : geomFact bb1 = Some (getFactory g)).
    { revert Hnoder. unfold getNoder. cbn [workingNoder set_geomFact].
      destruct (workingNoder bb); by intros [= _ <-]. }
    cbn [fst]. unfold singleSidedLine. rewrite Hfact. cbn [deref bind].
    destruct (intersectMergedLines _ _ _ _) as [mergedLines| |]; cbn [bind];
      [|discriminate..].
    intros [= <-]. apply lineResult_lineal, trimMergedLines_twoPointLines.
Qed.

(** X13: [bufferLineSingleSided] works beside the builder it is called on:
    the parameters, the working precision model, the working noder, the
    orientation flag and the edge list of the builder are the same after the
    call, whatever its outcome. *)
Theorem bufferLineSingleSided_leaves_builder_edges g distance leftSide bb :
  let bb' := snd (bufferLineSingleSided g distance leftSide bb) in
  sameSetup bb bb' /\ edgeList bb' = edgeList bb.
Proof.
  cbv zeta. unfold bufferLineSingleSided, sameSetup.
  destruct (asLineString g) as [l|]; [|done].
  destruct (distance =? 0)%float; [done|].
  destruct (fst (buffer g distance _)) as [buf| |]; [|done..].
  unfold getNoder. cbn [workingNoder set_geomFact].
  destruct (workingNoder bb) eqn:Hn; cbn; by rewrite ?Hn.
Qed.

End SingleSidedResultFacts.

(** ** Insertion, look-up and the noder *)

Section LookupFacts.

Context {Label : Type} `{LabelOps Label} `{Collaborators Label}.

Implicit Types (e ex : Edge Label) (el : EdgeList Label).

Lemma insertUniqueEdge_holds_equal e el :
  equalEdge e e = true ->
  exists ex, ex ∈ insertUniqueEdge e el /\ equalEdge ex e = true.
Proof.
  intros Hrefl. destruct (findEqualEdge el e) as [i|] eqn:Hf.
  - destruct (findEqualEdge_Some el e i Hf) as (ex & Hi & Heq).
    rewrite (insertUniqueEdge_existing el e i ex Hf Hi).
    eexists. split.
    + eapply list_elem_of_lookup_2. apply list_lookup_insert_eq.
      by eapply lookup_lt_Some.
    + exact Heq.
  - rewrite (insertUniqueEdge_fresh el e Hf).
    exists (setDepthDelta (depthDelta (getLabel e)) e). split; [|exact Hrefl].
    apply elem_of_app. right. constructor.
Qed.

(** X15: an edge that has been inserted is found again: for an edge whose
    chain equals itself (no ordinate is NaN), the edge list after
    [insertUniqueEdge] holds an edge equal to it at the place
    [findEqualEdge] returns, and a second insertion of the edge adds no
    chain to the list. *)
Theorem inserted_edge_is_found_again e el :
  equalEdge e e = true ->
  (exists i ex,
     findEqualEdge (insertUniqueEdge e el) e = Some i /\
     insertUniqueEdge e el !! i = Some ex /\ equalEdge ex e = true) /\
  chainsOf (insertUniqueEdge e (insertUniqueEdge e el)) =
    chainsOf (insertUniqueEdge e el).
Proof.
  intros Hrefl.
  destruct (findEqualEdge_found _ e (insertUniqueEdge_holds_equal e el Hrefl))
    as [i Hi].
  split.
  - destruct (findEqualEdge_Some _ e i Hi) as (ex & Hex & Heq). eauto.
  - by rewrite (chainsOf_insertUniqueEdge e (insertUniqueEdge e el)), Hi.
Qed.

(** X14: a working noder is used as it is: with one, [computeNodedEdges]
    does the same whatever precision model it is given and leaves the line
    intersector of the builder alone; without one, the line intersector of
    the builder is bound to the given precision model afterwards, whatever
    it was bound to before. *)
Theorem working_noder_ignores_precision_model
    bufferSegStrList pm (bb : BufferBuilder Label) :
  (forall noder, workingNoder bb = Some noder ->
     fst (getNoder pm bb) = noder /\
     li (snd (computeNodedEdges bufferSegStrList pm bb)) = li bb /\
     forall pm', computeNodedEdges bufferSegStrList pm' bb =
                 computeNodedEdges bufferSegStrList pm bb) /\
  (workingNoder bb = None ->
   fst (getNoder pm bb) = MCIndexNoder pm /\
   li (snd (computeNodedEdges bufferSegStrList pm bb)) = Some pm).
Proof.
  unfold computeNodedEdges, getNoder. split.
  - intros noder ->. cbn [fst]. split; [reflexivity|].
    split; [by destruct (noder Label bufferSegStrList)|reflexivity].
  - intros ->. cbn [fst]. split; [reflexivity|].
    by destruct (MCIndexNoder pm Label bufferSegStrList).
Qed.

End LookupFacts.

(** ** More runs in the small world *)

Module MoreSamples.

Import TopoLabel Samples.

(** The small world with a depth computation that fails on a subgraph
    whose rightmost coordinate lies left of x = 2. *)
Definition failingWorld : Collaborators Label := {|
  getCurves := @getCurves _ world;
  MCIndexNoder := @MCIndexNoder _ world;
  PlanarGraph := @PlanarGraph _ world;
  Node := @Node _ world;
  addEdges := @addEdges _ world;
  getNodes := @getNodes _ world;
  isVisited := @isVisited _ world;
  BufferSubgraph := Subgraph;
  create := @create _ world;
  compareTo := sampleCompareTo;
  getRightmostCoordinate := sg_rightmost;
  computeDepth d sg :=
    if (cx (sg_rightmost sg) <? 2)%float
    then Throw (GEOSException "unable to find edge to compute depths")
    else Ok (mkSubgraph (sg_rightmost sg) (Some d));
  findResultEdges sg := sg;
  getDepth := @getDepth _ world;
  PolygonBuilder := @PolygonBuilder _ world;
  newPolygonBuilder := @newPolygonBuilder _ world;
  addSubgraph := @addSubgraph _ world;
  getPolygons := @getPolygons _ world;
  buildGeometry := @buildGeometry _ world;
  getDimension := @getDimension _ world;
  getBoundary := @getBoundary _ world;
  getArea := @getArea _ world;
  getLength := @getLength _ world;
  overlayUnion := @overlayUnion _ world;
  polygonize := @polygonize _ world;
  unaryUnion := @unaryUnion _ world;
  snapIntersection := @snapIntersection _ world;
  getMergedLineStrings := @getMergedLineStrings _ world;
  getSingleSidedLineCurve := @getSingleSidedLineCurve _ world
|}.

Definition threeSubstrings : list (SegmentString Label) :=
  [mkSegmentString [xy 0 0; xy 1 0] (curveLabel BOUNDARY INTERIOR EXTERIOR);
   mkSegmentString [xy 1 0; xy 0 0] (curveLabel BOUNDARY EXTERIOR INTERIOR);
   mkSegmentString [xy 0 0; xy 1 0] (curveLabel BOUNDARY INTERIOR EXTERIOR)].

(** Three coincident substrings end as one edge of depth delta 3. *)
Example three_coincident_substrings :
  edgeList (snd (computeNodedEdges threeSubstrings FLOATING plainBuilder)) =
    [mkEdge [xy 0 0; xy 1 0] (curveLabel BOUNDARY INTERIOR EXTERIOR) 3].
Proof. vm_compute. reflexivity. Qed.

Lemma depth_deltas_bounded_by_substrings_witness :
  Forall (fun e => (Z.abs (getDepthDelta e) <= 3)%Z)
         (edgeList (snd (computeNodedEdges threeSubstrings FLOATING plainBuilder))).
Proof.
  refine (depth_deltas_bounded_by_substrings threeSubstrings FLOATING plainBuilder
            threeSubstrings eq_refl eq_refl _).
  vm_compute. discriminate.
Defined.

(** A builder with a working noder that fails. *)
Definition failingNoder : Noder := fun D _ => Throw (GEOSException "noding failed").

Definition builderWithFailingNoder : BufferBuilder Label :=
  mkBufferBuilder (roundParams false) None (Some failingNoder) None None [] false.

Lemma buffer_throws_what_the_noder_throws_witness :
  fst (buffer baseLine 1 builderWithFailingNoder) = Throw (GEOSException "noding failed") /\
  edgeList (snd (buffer baseLine 1 builderWithFailingNoder)) = [].
Proof.
  refine (buffer_throws_what_the_noder_throws baseLine 1 builderWithFailingNoder
            _ _ _ eq_refl _ _); reflexivity.
Defined.

Lemma buffer_result_from_polygons_witness :
  fst (buffer baseLine 1 plainBuilder) = Ok (createPolygon fact0).
Proof.
  edestruct (buffer_result_from_polygons baseLine 1 plainBuilder) as [Hempty _].
  - reflexivity.
  - reflexivity.
  - reflexivity.
  - vm_compute. reflexivity.
  - vm_compute. reflexivity.
  - apply Hempty. reflexivity.
Defined.

Definition sortedThree : list Subgraph :=
  [mkSubgraph (xy 5 0) None; mkSubgraph (xy 3 0) None; mkSubgraph (xy 1 0) None].

Lemma buildSubgraphs_throws_at_first_failing_turn_witness :
  @buildSubgraphs Label failingWorld sortedThree noPolygons =
    Throw (GEOSException "unable to find edge to compute depths").
Proof.
  refine (@buildSubgraphs_throws_at_first_failing_turn Label failingWorld
            sortedThree noPolygons 2 _ _ _ _ _).
  - cbn. lia.
  - vm_compute. reflexivity.
  - vm_compute. reflexivity.
Defined.

Lemma buildSubgraphs_feeds_polygon_builder_in_order_witness :
  exists st,
    @buildSubgraphs Label world sortedThree noPolygons = Ok st /\
    processedGraphs st = [0; 1; 2]%nat.
Proof.
  eexists. split; [vm_compute; reflexivity|].
  refine (proj1 (@buildSubgraphs_feeds_polygon_builder_in_order Label world
                   sortedThree noPolygons _ _)).
  vm_compute. reflexivity.
Defined.

Definition shortLine : Geometry := LineString fact0 [xy 0 0; xy 1 0].
Definition longAndShort : Geometry :=
  Collection fact0 MULTILINESTRING [baseLine; shortLine].

(** The second component fails in the depth computation: the whole call
    throws. *)
Lemma buffer_singleSided_component_outcomes_witness :
  fst (@buffer Label _ failingWorld longAndShort 1 singleSidedBuilder) =
    Throw (GEOSException "unable to find edge to compute depths").
Proof.
  refine (proj2 (@buffer_singleSided_component_outcomes Label _ failingWorld
                   longAndShort 1 singleSidedBuilder eq_refl _)
                [baseLine] shortLine [] _ eq_refl _ _).
  - cbn. lia.
  - constructor; [|constructor]. eexists. vm_compute. reflexivity.
  - vm_compute. reflexivity.
Defined.

Lemma inserted_edge_is_found_again_witness :
  chainsOf (insertUniqueEdge EdgeSamples.forwardEdge
              (insertUniqueEdge EdgeSamples.forwardEdge [])) =
    [[xy 0 0; xy 1 0; xy 1 1]].
Proof.
  refine (eq_trans (proj2 (inserted_edge_is_found_again EdgeSamples.forwardEdge [] _)) _);
    vm_compute; reflexivity.
Defined.

Lemma trimEndPoints_keeps_a_run_of_the_line_witness :
  trimEndPoints bentStart bentEnd 1 1.5 [xy 1.5 0.5] = None /\
  exists front back,
    mergedLine = front ++ [xy 0.5 0.5; xy 0.5 1.5; xy 0.5 5] ++ back.
Proof.
  split.
  - refine (proj2 (trimEndPoints_keeps_a_run_of_the_line bentStart bentEnd 1 1.5
                     [xy 1.5 0.5] _) _).
    + vm_compute. discriminate.
    + cbn. lia.
  - refine (proj2 (proj1 (trimEndPoints_keeps_a_run_of_the_line bentStart bentEnd 1 1.5
                            mergedLine _) _ _)).
    + vm_compute. discriminate.
    + vm_compute. reflexivity.
Defined.

Lemma bufferLineSingleSided_returns_lines_witness :
  linealResult fact0 (LineString fact0 [mkCoordinate 0 1 nan; mkCoordinate 10 1 nan]).
Proof.
  refine (proj2 (proj2 (bufferLineSingleSided_returns_lines baseLine 1 true plainBuilder
                          _ _)) _).
  - vm_compute. reflexivity.
  - vm_compute. reflexivity.
Defined.

End MoreSamples.
